(** * The purge engine of moist-bot

    A shallow embedding of [src/moist_bot/cogs/purge.py]: the stateful
    [ChannelPurger] (scan, age partition, bulk deletion with per-message
    fallback, one-by-one deletion) and the parts of the [Purge] cog that
    validate a request and report its result.

    Remote calls are modelled by a [Platform] whose answers may depend on
    everything that happened before; every call is recorded in a trace, so
    that statements such as "never attempted" or "before any scan" can be
    read off the trace. *)

From Stdlib Require Import String Ascii DecimalString.
From Stdlib Require Import List ZArith Lia Bool Arith Permutation Sorted.
Import ListNotations.

Local Open Scope list_scope.

(** ** Data model *)

(** [discord.User] / [discord.Member], restricted to what the engine reads. *)
Record User := mkUser {
  user_id : Z;
  display_name : string;
  bot : bool
}.

(** [discord.Message]; [created_at] is an instant in microseconds. *)
Record Message := mkMessage {
  id : Z;
  author : User;
  created_at : Z
}.

Definition User_eq_dec (a b : User) : {a = b} + {a <> b}.
Proof.
  decide equality; auto using Z.eq_dec, string_dec, bool_dec.
Defined.

(** How a delete call ends: normally, with [discord.NotFound], or with any
    other [discord.HTTPException]. *)
Inductive Outcome := Done | NotFound | HTTPException.

(** What [ctx.send] is given by [_send_result]. *)
Inductive Payload :=
| Text (content : string)
| Embed (description : string) (breakdown_field : option string).

(** One entry per remote call, in the order the calls are made. *)
Inductive Event :=
| Reply (text : string)                              (* ctx.reply *)
| Prompt (text : string) (answer : option bool)      (* ctx.prompt *)
| Defer                                              (* ctx.defer *)
| DeleteInvocation (r : Outcome)                     (* ctx.message.delete() in _prepare *)
| Utcnow (t : Z)                                     (* discord.utils.utcnow() *)
| HistoryOpen (limit : Z)                            (* channel.history(limit=...) *)
| HistoryItem (m : Message)                          (* one message yielded by the iterator *)
| Delete (m : Message) (r : Outcome)                 (* msg.delete() in _delete_single *)
| ChunkDelete (m : Message) (r : Outcome)            (* chunk[0].delete() in _bulk_delete *)
| DeleteMessages (chunk : list Message) (r : Outcome) (* channel.delete_messages(chunk) *)
| Send (p : Payload).                                (* ctx.send *)

(** The remote side.  Each answer is a function of the trace so far, so a
    platform may answer the same call differently at different times. *)
Record Platform := mkPlatform {
  clock : list Event -> Z;
  history : list Message;
  delete : list Event -> Message -> Outcome;
  delete_messages : list Event -> list Message -> Outcome;
  confirm : list Event -> option bool;
  delete_invocation : list Event -> Outcome
}.

(** The purger object ([self.deleted]) together with the trace. *)
Record State := mkState {
  deleted : list Message;
  trace : list Event
}.

(** ** A small state monad *)

Definition M (A : Type) : Type := State -> A * State.

Definition ret {A : Type} (a : A) : M A := fun st => (a, st).

Definition bind {A B : Type} (c : M A) (k : A -> M B) : M B :=
  fun st => let (a, st') := c st in k a st'.

Notation "x <- c ;; k" := (bind c (fun x => k))
  (at level 61, c at next level, right associativity).

Definition emit (e : Event) : M unit :=
  fun st => (tt, mkState (deleted st) (trace st ++ [e])).

Definition get_deleted : M (list Message) := fun st => (deleted st, st).

(** [self.deleted.append(msg)] is [extend_deleted [msg]]. *)
Definition extend_deleted (msgs : list Message) : M unit :=
  fun st => (tt, mkState (deleted st ++ msgs) (trace st)).

Definition call_delete (p : Platform) (m : Message) : M Outcome :=
  fun st => let r := delete p (trace st) m in
            (r, mkState (deleted st) (trace st ++ [Delete m r])).

Definition call_chunk_delete (p : Platform) (m : Message) : M Outcome :=
  fun st => let r := delete p (trace st) m in
            (r, mkState (deleted st) (trace st ++ [ChunkDelete m r])).

Definition call_delete_messages (p : Platform) (chunk : list Message) : M Outcome :=
  fun st => let r := delete_messages p (trace st) chunk in
            (r, mkState (deleted st) (trace st ++ [DeleteMessages chunk r])).

Definition call_utcnow (p : Platform) : M Z :=
  fun st => let t := clock p (trace st) in
            (t, mkState (deleted st) (trace st ++ [Utcnow t])).

(** ** ChannelPurger *)

Module ChannelPurger.

(** [BULK_DELETE_LIMIT = datetime.timedelta(days=14)], in microseconds. *)
Definition BULK_DELETE_LIMIT : Z := 14 * 86400 * 1000000.

(** [_delete_single]: [false] on a hard failure. *)
Definition _delete_single (p : Platform) (msg : Message) : M bool :=
  r <- call_delete p msg ;;
  match r with
  | HTTPException => ret false
  | Done | NotFound => _ <- extend_deleted [msg] ;; ret true
  end.

(** The loop [for msg in msgs: if not await self._delete_single(msg): stop],
    used for the fallback of a chunk ([return]) and for the old messages
    ([break]).  The result is [false] when the loop was left early. *)
Fixpoint delete_each (p : Platform) (msgs : list Message) : M bool :=
  match msgs with
  | [] => ret true
  | msg :: rest =>
      ok <- _delete_single p msg ;;
      if ok then delete_each p rest else ret false
  end.

(** [range(0, stop, step)] and [l[i:j]] for [i <= j]. *)
Definition range0 (stop step : nat) : list nat :=
  map (fun k => k * step) (seq 0 ((stop + step - 1) / step)).

Definition slice {A : Type} (l : list A) (i j : nat) : list A :=
  firstn (j - i) (skipn i l).

(** The first attempt on a chunk: the single-message call for a chunk of
    one, the batch call otherwise. *)
Definition delete_chunk (p : Platform) (chunk : list Message) : M Outcome :=
  match chunk with
  | [m] => call_chunk_delete p m
  | _ => call_delete_messages p chunk
  end.

(** The body of [_bulk_delete] over the chunk starts [range(0, len, 100)].
    The result is [false] when the fallback hit a hard failure and the
    function returned early. *)
Fixpoint bulk_chunks (p : Platform) (messages : list Message) (starts : list nat)
  : M bool :=
  match starts with
  | [] => ret true
  | i :: rest =>
      let chunk := slice messages i (i + 100) in
      r <- delete_chunk p chunk ;;
      match r with
      | Done => _ <- extend_deleted chunk ;; bulk_chunks p messages rest
      | NotFound | HTTPException =>
          ok <- delete_each p chunk ;;
          if ok then bulk_chunks p messages rest else ret false
      end
  end.

Definition chunk_starts (messages : list Message) : list nat :=
  range0 (length messages) 100.

(** [_bulk_delete] returns [None] on both exits. *)
Definition _bulk_delete (p : Platform) (messages : list Message) : M unit :=
  _ <- bulk_chunks p messages (chunk_starts messages) ;; ret tt.

(** The [async for] loop of [purge] over the messages the iterator yields. *)
Fixpoint scan (check : Message -> bool) (limit : Z) (items : list Message)
  (messages : list Message) : M (list Message) :=
  match items with
  | [] => ret messages
  | message :: rest =>
      _ <- emit (HistoryItem message) ;;
      if check message then
        let messages' := messages ++ [message] in
        if Z.of_nat (length messages') >=? limit then ret messages'
        else scan check limit rest messages'
      else scan check limit rest messages
  end%Z.

(** [channel.history(limit=n, ...)] yields at most [n] messages, and none
    when [n < 1]. *)
Definition history_iter (p : Platform) (n : Z) : list Message :=
  firstn (Z.to_nat n) (history p).

Definition scan_limit (limit : Z) : Z := Z.min (limit * 5) 5000.

Definition bulk_cutoff (now : Z) : Z := (now - BULK_DELETE_LIMIT)%Z.

Definition bulk_msgs (cutoff : Z) (messages : list Message) : list Message :=
  filter (fun m => created_at m >? cutoff)%Z messages.

Definition old_msgs (cutoff : Z) (messages : list Message) : list Message :=
  filter (fun m => created_at m <=? cutoff)%Z messages.

Definition collect (p : Platform) (limit : Z) (check : Message -> bool)
  : M (list Message) :=
  _ <- emit (HistoryOpen (scan_limit limit)) ;;
  scan check limit (history_iter p (scan_limit limit)) [].

Definition purge (p : Platform) (limit : Z) (check : Message -> bool)
  : M (list Message) :=
  now <- call_utcnow p ;;
  let cutoff := bulk_cutoff now in
  messages <- collect p limit check ;;
  match messages with
  | [] => get_deleted
  | _ :: _ =>
      _ <- _bulk_delete p (bulk_msgs cutoff messages) ;;
      _ <- delete_each p (old_msgs cutoff messages) ;;
      get_deleted
  end.

End ChannelPurger.

(** ** The Purge cog *)

Module Purge.

(** What [_prepare] reads of the invocation context. *)
Record Context := mkContext {
  has_interaction : bool;       (* ctx.interaction is not None *)
  response_is_done : bool       (* ctx.interaction.response.is_done() *)
}.

Definition call_prompt (p : Platform) (text : string) : M (option bool) :=
  fun st => let a := confirm p (trace st) in
            (a, mkState (deleted st) (trace st ++ [Prompt text a])).

Definition call_delete_invocation (p : Platform) : M Outcome :=
  fun st => let r := delete_invocation p (trace st) in
            (r, mkState (deleted st) (trace st ++ [DeleteInvocation r])).

(** [_prepare]: defer the interaction, or delete the invoking message and
    ignore any [HTTPException]. *)
Definition _prepare (p : Platform) (ctx : Context) : M unit :=
  if has_interaction ctx then
    if negb (response_is_done ctx) then emit Defer else ret tt
  else
    _ <- call_delete_invocation p ;; ret tt.

(** [_make_purger]: a new [ChannelPurger], whose [deleted] list is empty.
    Its [before]/[after] bounds select the messages [history] stands for. *)
Definition _make_purger : M unit :=
  fun st => (tt, mkState [] (trace st)).

(** Python's [str] on the integers that are rendered. *)
Definition str (n : nat) : string := NilZero.string_of_uint (Nat.to_uint n).

Definition str_int (z : Z) : string := NilZero.string_of_int (Z.to_int z).

Definition newline : string := String (ascii_of_nat 10) EmptyString.

(** [sep.join(parts)]. *)
Fixpoint join (sep : string) (parts : list string) : string :=
  match parts with
  | [] => EmptyString
  | [x] => x
  | x :: rest => (x ++ sep ++ join sep rest)%string
  end.

(** [authors: dict[str, int]], in insertion order. *)
Definition Dict := list (string * nat).

Fixpoint dict_get (d : Dict) (key : string) (default : nat) : nat :=
  match d with
  | [] => default
  | (k, v) :: rest => if String.eqb k key then v else dict_get rest key default
  end.

(** [d[key] = v]: an existing key keeps its place, a new key goes last. *)
Fixpoint dict_set (d : Dict) (key : string) (v : nat) : Dict :=
  match d with
  | [] => [(key, v)]
  | (k, x) :: rest =>
      if String.eqb k key then (k, v) :: rest else (k, x) :: dict_set rest key v
  end.

(** The counting loop of [_send_result]. *)
Definition count_authors (deleted : list Message) : Dict :=
  fold_left
    (fun authors msg =>
       let name := display_name (author msg) in
       dict_set authors name (dict_get authors name 0 + 1))
    deleted [].

(** [sorted(items, key=itemgetter(1), reverse=True)]: a stable sort, larger
    counts first; entries with equal counts keep their order. *)
Fixpoint insert_desc (x : string * nat) (l : list (string * nat))
  : list (string * nat) :=
  match l with
  | [] => [x]
  | y :: rest => if snd x <? snd y then y :: insert_desc x rest else x :: l
  end.

Definition sorted_desc (items : list (string * nat)) : list (string * nat) :=
  fold_right insert_desc [] items.

Definition breakdown_line (entry : string * nat) : string :=
  ("**" ++ fst entry ++ "**: " ++ str (snd entry))%string.

Definition remainder_note (omitted : nat) : string :=
  (newline ++ "*...and " ++ str omitted ++ " more*")%string.

Definition breakdown (sorted_authors : list (string * nat)) : string :=
  let listing := join newline (map breakdown_line (firstn 10 sorted_authors)) in
  if 10 <? length sorted_authors
  then (listing ++ remainder_note (length sorted_authors - 10))%string
  else listing.

Definition no_match_text : string :=
  ":warning: No messages found matching the criteria."%string.

(** [_send_result].  [plural_message count] stands for
    [f'{plural(count):message}'] of [moist_bot.utils.formats], which is not
    part of the sources at hand. *)
Definition _send_result (plural_message : nat -> string)
  (deleted : list Message) : M unit :=
  let count := length deleted in
  if count =? 0 then emit (Send (Text no_match_text))
  else
    let authors := count_authors deleted in
    let sorted_authors := sorted_desc authors in
    let b := breakdown sorted_authors in
    emit (Send (Embed
      ("Successfully removed **" ++ plural_message count ++ "**.")%string
      (match b with EmptyString => None | _ => Some b end))).

Definition limit_text : string :=
  ":warning: Limit must be between 1 and 2000."%string.

Definition cancelled_text : string := ":no_entry: Cancelled."%string.

Definition prompt_text (limit : Z) : string :=
  ("Are you sure you want to purge up to **" ++ str_int limit ++ "** messages?")%string.

(** The part of [_validate_and_purge] after validation and confirmation. *)
Definition prepare_purge_report (p : Platform) (plural_message : nat -> string)
  (ctx : Context) (limit : Z) (check : Message -> bool) : M unit :=
  _ <- _prepare p ctx ;;
  _ <- _make_purger ;;
  deleted <- ChannelPurger.purge p limit check ;;
  _send_result plural_message deleted.

Definition _validate_and_purge (p : Platform) (plural_message : nat -> string)
  (ctx : Context) (limit : Z) (check : Message -> bool) (confirm_threshold : Z)
  : M unit :=
  if ((limit <? 1) || (limit >? 2000))%Z then emit (Reply limit_text)
  else if (limit >? confirm_threshold)%Z then
    answer <- call_prompt p (prompt_text limit) ;;
    match answer with
    | Some true => prepare_purge_report p plural_message ctx limit check
    | Some false | None => emit (Reply cancelled_text)
    end
  else prepare_purge_report p plural_message ctx limit check.

End Purge.


(** ** Reading a trace *)

(** A hard failure is any outcome [_delete_single] answers [False] to. *)
Definition soft (r : Outcome) : bool :=
  match r with
  | HTTPException => false
  | Done | NotFound => true
  end.

(** [e] is a per-message delete of [m] that did not fail hard. *)
Definition accepted_delete (m : Message) (e : Event) : Prop :=
  e = Delete m Done \/ e = Delete m NotFound.

(** The event of the first attempt on a chunk with outcome [r]. *)
Definition first_attempt (chunk : list Message) (r : Outcome) : Event :=
  match chunk with
  | [m] => ChunkDelete m r
  | _ => DeleteMessages chunk r
  end.

(** The messages an event adds to the deleted list. *)
Definition settled (e : Event) : list Message :=
  match e with
  | Delete m r => if soft r then [m] else []
  | ChunkDelete m Done => [m]
  | DeleteMessages chunk Done => chunk
  | _ => []
  end.

(** The chunk a first attempt is made on. *)
Definition attempt_of (e : Event) : list (list Message) :=
  match e with
  | ChunkDelete m _ => [[m]]
  | DeleteMessages chunk _ => [chunk]
  | _ => []
  end.

(** The messages of the single-message delete calls of [_delete_single]. *)
Definition single_of (e : Event) : list Message :=
  match e with
  | Delete m _ => [m]
  | _ => []
  end.

Definition is_history_or_delete (e : Event) : bool :=
  match e with
  | HistoryOpen _ | HistoryItem _ | Delete _ _ | ChunkDelete _ _
  | DeleteMessages _ _ | DeleteInvocation _ => true
  | _ => false
  end.

Definition is_prompt (e : Event) : bool :=
  match e with
  | Prompt _ _ => true
  | _ => false
  end.

Definition is_utcnow (e : Event) : bool :=
  match e with
  | Utcnow _ => true
  | _ => false
  end.

Definition examined_of (e : Event) : list Message :=
  match e with
  | HistoryItem m => [m]
  | _ => []
  end.

(** The chunks [_bulk_delete] walks through. *)
Definition chunks (messages : list Message) : list (list Message) :=
  map (fun i => ChannelPurger.slice messages i (i + 100))
      (ChannelPurger.chunk_starts messages).

(** [l1] keeps the order of [l2]: it is [l2] with some elements left out. *)
Inductive subseq {A : Type} : list A -> list A -> Prop :=
| subseq_nil : subseq [] []
| subseq_keep x l1 l2 : subseq l1 l2 -> subseq (x :: l1) (x :: l2)
| subseq_drop x l1 l2 : subseq l1 l2 -> subseq l1 (x :: l2).

Definition prefix {A : Type} (l1 l2 : list A) : Prop :=
  exists rest, l2 = l1 ++ rest.

(** The shape of a run of [delete_each] on [msgs]: the events it adds, the
    messages it appends, and whether it went through. *)
Inductive each_run : list Message -> list Event -> list Message -> bool -> Prop :=
| each_nil : each_run [] [] [] true
| each_soft m r rest evs dels ok :
    soft r = true ->
    each_run rest evs dels ok ->
    each_run (m :: rest) (Delete m r :: evs) (m :: dels) ok
| each_hard m rest :
    each_run (m :: rest) [Delete m HTTPException] [] false.

(** The shape of the work on one chunk. *)
Inductive chunk_run : list Message -> list Event -> list Message -> bool -> Prop :=
| chunk_done c :
    chunk_run c [first_attempt c Done] c true
| chunk_fallback c r evs dels ok :
    r <> Done ->
    each_run c evs dels ok ->
    chunk_run c (first_attempt c r :: evs) dels ok.

(** The shape of the work on a list of chunks. *)
Inductive chunks_run : list (list Message) -> list Event -> list Message -> bool -> Prop :=
| chunks_nil : chunks_run [] [] [] true
| chunks_next c cs e1 d1 e2 d2 ok :
    chunk_run c e1 d1 true ->
    chunks_run cs e2 d2 ok ->
    chunks_run (c :: cs) (e1 ++ e2) (d1 ++ d2) ok
| chunks_abort c cs e1 d1 :
    chunk_run c e1 d1 false ->
    chunks_run (c :: cs) e1 d1 false.

(** The two phases of [purge] after a clock reading [now]. *)
Definition delete_phase (p : Platform) (now : Z) (messages : list Message)
  : M (list Message) :=
  _ <- ChannelPurger._bulk_delete p
         (ChannelPurger.bulk_msgs (ChannelPurger.bulk_cutoff now) messages) ;;
  _ <- ChannelPurger.delete_each p
         (ChannelPurger.old_msgs (ChannelPurger.bulk_cutoff now) messages) ;;
  get_deleted.

(** ** Reading a breakdown *)

(** The display names of the authors of the deleted messages, in order. *)
Definition names_of (deleted : list Message) : list string :=
  map (fun m => display_name (author m)) deleted.

(** The distinct elements of a list of names, in order of first appearance. *)
Fixpoint first_seen (names : list string) : list string :=
  match names with
  | [] => []
  | x :: rest => x :: filter (fun y => negb (String.eqb y x)) (first_seen rest)
  end.

(** The distinct authors of the deleted messages. *)
Definition distinct_authors (deleted : list Message) : list User :=
  nodup User_eq_dec (map author deleted).


Fixpoint has_suffix (suffix s : string) : bool :=
  String.eqb suffix s ||
  match s with
  | EmptyString => false
  | String _ s' => has_suffix suffix s'
  end.

(** ** Concrete platforms and histories *)

Module Scenario.

Definition day : Z := 86400 * 1000000.

(** The instant every clock reading of the scenarios returns. *)
Definition noon : Z := 1000 * day.

Definition alice : User := mkUser 1 "alice" false.

(** Message number [i], written [age] days before [noon]. *)
Definition msg (i : Z) (age : Z) : Message :=
  mkMessage i alice (noon - age * day)%Z.

(** Messages [1 .. n], all of the same age. *)
Definition msgs (n : nat) (age : Z) : list Message :=
  map (fun k => msg (Z.of_nat k) age) (seq 1 n).

(** How many [_delete_single] calls a trace holds. *)
Definition singles (tr : list Event) : nat := length (flat_map single_of tr).

Definition platform (hist : list Message)
  (del : list Event -> Message -> Outcome)
  (batch : list Event -> list Message -> Outcome) : Platform :=
  mkPlatform (fun _ => noon) hist del batch (fun _ => Some true) (fun _ => Done).

(** Every call succeeds. *)
Definition calm (hist : list Message) : Platform :=
  platform hist (fun _ _ => Done) (fun _ _ => Done).

(** The ninth per-message delete fails hard. *)
Definition ninth_fails (hist : list Message) : Platform :=
  platform hist
    (fun tr _ => if singles tr =? 8 then HTTPException else Done)
    (fun _ _ => Done).

(** Batch calls always fail, and so does deleting message number 1. *)
Definition batch_down (hist : list Message) : Platform :=
  platform hist
    (fun _ m => if (id m =? 1)%Z then HTTPException else Done)
    (fun _ _ => HTTPException).

(** Messages that are already gone: every delete answers [NotFound]. *)
Definition all_gone (hist : list Message) : Platform :=
  platform hist (fun _ _ => NotFound) (fun _ _ => NotFound).

Definition fresh : State := mkState [] [].

Definition everything (_ : Message) : bool := true.

(** One message by user number [i] whose display name is [name]. *)
Definition post (i : Z) (name : string) : Message :=
  mkMessage (100 + i) (mkUser i name false) noon.

(** Eleven messages by eleven different users; the last user goes by the
    same display name as the first. *)
Definition crowd : list Message :=
  [post 1 "ann"; post 2 "bea"; post 3 "cyd"; post 4 "dee"; post 5 "eli";
   post 6 "fay"; post 7 "gus"; post 8 "hal"; post 9 "ida"; post 10 "jon";
   post 11 "ann"].

(** Eleven messages by eleven users with eleven display names. *)
Definition parade : list Message :=
  [post 1 "ann"; post 2 "bea"; post 3 "cyd"; post 4 "dee"; post 5 "eli";
   post 6 "fay"; post 7 "gus"; post 8 "hal"; post 9 "ida"; post 10 "jon";
   post 11 "kim"].


(** Thirteen messages: three by B, seven by A, three by C; B is seen first
    and C last. *)
Definition a7_b3_c3 : list Message :=
  [post 2 "B"; post 1 "A"; post 2 "B"; post 1 "A"; post 1 "A"; post 3 "C";
   post 1 "A"; post 2 "B"; post 1 "A"; post 3 "C"; post 1 "A"; post 1 "A";
   post 3 "C"].

End Scenario.

(** ** Auxiliary notions used in the statements *)

(** An event of the bulk phase is a per-message delete of the fallback or
    the first attempt on one of the chunks. *)
Definition bulk_event (cs : list (list Message)) (e : Event) : Prop :=
  (exists c m r, In c cs /\ In m c /\ e = Delete m r) \/
  (exists c r, In c cs /\ e = first_attempt c r).

(** The reading of C3 as it is worded: after a failed first attempt on a
    chunk, every message of the chunk gets a per-message delete. *)
Definition fallback_attempts_every_item (p : Platform)
  (messages : list Message) (st : State) : Prop :=
  let evs := trace (snd (ChannelPurger._bulk_delete p messages st)) in
  forall c r, In c (chunks messages) -> In (first_attempt c r) evs ->
    r <> Done ->
    forall m, In m c -> exists r', In (Delete m r') evs.

(** The counting step of [_send_result], on the display name alone. *)
Definition count_name (authors : Purge.Dict) (name : string) : Purge.Dict :=
  Purge.dict_set authors name (Purge.dict_get authors name 0 + 1).

(** [a] may come before [b] in the sorted breakdown. *)
Definition count_ge (a b : string * nat) : Prop := snd b <= snd a.

(** The reading of C9 as it is worded: with more than ten distinct authors
    the breakdown ends with a note giving the number of authors beyond
    ten. *)
Definition note_counts_omitted_authors (deleted : list Message) : Prop :=
  10 < length (distinct_authors deleted) ->
  has_suffix
    (Purge.remainder_note (length (distinct_authors deleted) - 10))
    (Purge.breakdown (Purge.sorted_desc (Purge.count_authors deleted)))
  = true.

(** ** The commands of the cog and their filters *)

(** The messages of the channel an event asks the platform to delete.  The
    invoking message, deleted by [_prepare] ([DeleteInvocation]), is not
    among them. *)
Definition targets (e : Event) : list Message :=
  match e with
  | Delete m _ | ChunkDelete m _ => [m]
  | DeleteMessages chunk _ => chunk
  | _ => []
  end.

(** The messages an event passes to a batch-path call of [_bulk_delete]. *)
Definition bulk_targets (e : Event) : list Message :=
  match e with
  | ChunkDelete m _ => [m]
  | DeleteMessages chunk _ => chunk
  | _ => []
  end.

Module Commands.

(** An attachment and an embed, restricted to what the filters read. *)
Record Attachment := mkAttachment {
  content_type : option string
}.

Record MessageEmbed := mkMessageEmbed {
  embed_type : string
}.

(** The attributes of a message that only the filters read.  They are
    reached through a function from messages, next to the fields of
    [Message]. *)
Record Attributes := mkAttributes {
  embeds : list MessageEmbed;
  attachments : list Attachment
}.

(** The [check] of [bots]. *)
Definition bots_check (target : option User) (m : Message) : bool :=
  match target with
  | Some b => (user_id (author m) =? user_id b)%Z
  | None => bot (author m)
  end.

(** [humans]: [lambda m: not m.author.bot]. *)
Definition humans_check (m : Message) : bool := negb (bot (author m)).

(** [embeds] and [files]: [len(...) > 0]. *)
Definition embeds_check (attrs : Message -> Attributes) (m : Message) : bool :=
  0 <? length (embeds (attrs m)).

Definition files_check (attrs : Message -> Attributes) (m : Message) : bool :=
  0 <? length (attachments (attrs m)).

(** The [check] of [images]. *)
Definition images_check (attrs : Message -> Attributes) (m : Message) : bool :=
  existsb
    (fun a => match content_type a with
              | Some ct => String.prefix "image/" ct
              | None => false
              end)
    (attachments (attrs m))
  || existsb (fun e => String.eqb (embed_type e) "image") (embeds (attrs m)).




Definition purge_after_text : string :=
  "This will delete up to **2000** messages after the specified message. Continue?"%string.

(** [purge_after]; the purger's history is the one after the given message.
    The typing indicator of [ctx.typing()] is not traced. *)
Definition purge_after (p : Platform) (plural_message : nat -> string)
  (ctx : Purge.Context) : M unit :=
  answer <- Purge.call_prompt p purge_after_text ;;
  match answer with
  | Some true =>
      _ <- Purge._prepare p ctx ;;
      _ <- Purge._make_purger ;;
      removed <- ChannelPurger.purge p 2000 (fun _ => true) ;;
      Purge._send_result plural_message removed
  | Some false | None => emit (Reply Purge.cancelled_text)
  end.

(** The bounds [between] gives its purger: [(after, before)]. *)
Definition between_bounds (start stop : Message) : Message * Message :=
  if (created_at start >? created_at stop)%Z then (stop, start)
  else (start, stop).

(** [PurgeFlags]: the optional [before] and [after] ids. *)
Record PurgeFlags := mkPurgeFlags {
  flag_before : option Z;
  flag_after : option Z
}.

(** A bound of the history: a bare id ([discord.Object]) or a message. *)
Inductive Bound :=
| ObjectBound (i : Z)
| MessageBound (m : Message).

(** [discord.Object(id=x) if x else None]. *)
Definition object_if_set (x : option Z) : option Bound :=
  match x with
  | Some i => if (i =? 0)%Z then None else Some (ObjectBound i)
  | None => None
  end.

Definition get_before (flags : PurgeFlags) : option Bound :=
  object_if_set (flag_before flags).

Definition get_after (flags : PurgeFlags) : option Bound :=
  object_if_set (flag_after flags).

(** [a or b] on optional objects. *)
Definition or_else {A : Type} (a b : option A) : option A :=
  match a with
  | Some x => Some x
  | None => b
  end.

(** The [before] and [after] bounds [_make_purger] passes to the new
    [ChannelPurger]. *)
Definition purger_bounds (ctx_message : Message) (flags : option PurgeFlags)
  (before after : option Bound) : Bound * option Bound :=
  let before' := match flags with
                 | Some f => or_else before (get_before f)
                 | None => before
                 end in
  let after' := match flags with
                | Some f => or_else after (get_after f)
                | None => after
                end in
  (match before' with
   | Some b => b
   | None => MessageBound ctx_message
   end, after').

(** What [cog_check] raises. *)
Inductive CheckFailure :=
| NoPrivateMessage
| MissingPermissions (perms : list string)
| BotMissingPermissions (perms : list string).

(** What [cog_check] reads. *)
Record Permissions := mkPermissions {
  in_guild : bool;                        (* ctx.guild is not None *)
  author_manage_messages : bool;
  bot_manage_messages : bool;
  bot_read_message_history : bool
}.

(** [cog_check]: [inr] is the returned value, [inl] the exception raised. *)
Definition cog_check (v : Permissions) : CheckFailure + bool :=
  if negb (in_guild v) then inl NoPrivateMessage
  else if negb (author_manage_messages v)
  then inl (MissingPermissions ["manage_messages"%string])
  else if negb (bot_manage_messages v)
  then inl (BotMissingPermissions ["manage_messages"%string])
  else if negb (bot_read_message_history v)
  then inl (BotMissingPermissions ["read_message_history"%string])
  else inr true.

End Commands.

(** The events [_prepare] adds to a trace. *)
Definition prepare_events (p : Platform) (ctx : Purge.Context)
  (tr : list Event) : list Event :=
  if Purge.has_interaction ctx then
    if Purge.response_is_done ctx then [] else [Defer]
  else [DeleteInvocation (delete_invocation p tr)].

(** What [_send_result] sends for a list of deleted messages. *)
Definition report_payload (plural_message : nat -> string)
  (removed : list Message) : Payload :=
  match removed with
  | [] => Text Purge.no_match_text
  | _ :: _ =>
      Embed ("Successfully removed **" ++ plural_message (length removed)
             ++ "**.")%string
            (Some (Purge.breakdown
                     (Purge.sorted_desc (Purge.count_authors removed))))
  end.

(** ** The confirmation dialog of [utils/context.py] *)

Module Confirmation.

Inductive Button := ConfirmButton | CancelButton.

(** A press of one of the two buttons by some user. *)
Record Click := mkClick {
  clicker : Z;
  button : Button
}.

(** [ConfirmationView], restricted to its [value] and the user it listens
    to. *)
Record ConfirmationView := mkView {
  value : option bool;
  author_id : Z
}.

Definition new_view (author : Z) : ConfirmationView := mkView None author.

(** [interaction_check]: only the author's interactions pass. *)
Definition interaction_check (view : ConfirmationView) (c : Click) : bool :=
  (clicker c =? author_id view)%Z.

(** The first statement of the [confirm] and [cancel] callbacks, the only
    two places where [value] is assigned.  What follows it in a callback
    ([defer], [delete_original_response], [stop]) may fail or let another
    press in, but never touches [value]. *)
Definition assign (view : ConfirmationView) (b : Button) : ConfirmationView :=
  match b with
  | ConfirmButton => mkView (Some true) (author_id view)
  | CancelButton => mkView (Some false) (author_id view)
  end.

(** A dispatched press: its callback starts, and so assigns, when
    [interaction_check] lets the interaction through. *)
Definition press (view : ConfirmationView) (c : Click) : ConfirmationView :=
  if interaction_check view c then assign view (button c) else view.

(** [Context.prompt] returns [view.value] as it is when [wait()] is over,
    by [stop()] or by the timeout.  [handled] lists the presses dispatched
    before that moment, in the order of their dispatch; a callback that
    fails after its assignment, or a press that arrives while another
    callback awaits, only changes which presses are in that list.  The view
    listens to [author_id or self.author.id]. *)
Definition prompt (ctx_author : Z) (author_id : option Z)
  (handled : list Click) : option bool :=
  let listens_to := match author_id with
                    | Some a => if (a =? 0)%Z then ctx_author else a
                    | None => ctx_author
                    end in
  value (fold_left press handled (new_view listens_to)).

End Confirmation.

(** Whether a press is on the Confirm button. *)
Definition pressed_confirm (c : Confirmation.Click) : bool :=
  match Confirmation.button c with
  | Confirmation.ConfirmButton => true
  | Confirmation.CancelButton => false
  end.

(** ** Answers and deletions of the invoking message *)

(** The outcome an event records is the answer of the platform on the
    trace [tr] that precedes the event. *)
Definition answer_of (p : Platform) (tr : list Event) (e : Event) : Prop :=
  match e with
  | Delete m r | ChunkDelete m r => r = delete p tr m
  | DeleteMessages chunk r => r = delete_messages p tr chunk
  | _ => True
  end.

(** Every event of [evs], made after the trace [tr], records the answer of
    the platform at its time. *)
Fixpoint answered (p : Platform) (tr : list Event) (evs : list Event) : Prop :=
  match evs with
  | [] => True
  | e :: rest => answer_of p tr e /\ answered p (tr ++ [e]) rest
  end.



(** * Properties *)

(** ** Running the primitives *)

Lemma _delete_single_run p msg st :
  ChannelPurger._delete_single p msg st =
  let r := delete p (trace st) msg in
  (soft r,
   mkState (if soft r then deleted st ++ [msg] else deleted st)
           (trace st ++ [Delete msg r])).
Proof.
  unfold ChannelPurger._delete_single, bind, call_delete, extend_deleted, ret.
  simpl. destruct (delete p (trace st) msg); reflexivity.
Qed.

Lemma delete_each_cons p msg rest st :
  ChannelPurger.delete_each p (msg :: rest) st =
  let r := delete p (trace st) msg in
  if soft r
  then ChannelPurger.delete_each p rest
         (mkState (deleted st ++ [msg]) (trace st ++ [Delete msg r]))
  else (false, mkState (deleted st) (trace st ++ [Delete msg r])).
Proof.
  simpl. unfold bind. rewrite _delete_single_run. simpl.
  destruct (soft (delete p (trace st) msg)); reflexivity.
Qed.

Lemma delete_each_shape p msgs : forall st ok st',
  ChannelPurger.delete_each p msgs st = (ok, st') ->
  exists evs dels,
    each_run msgs evs dels ok /\
    trace st' = trace st ++ evs /\
    deleted st' = deleted st ++ dels.
Proof.
  induction msgs as [|m rest IH]; intros st ok st' H.
  - simpl in H. unfold ret in H. inversion H; subst.
    exists [], []. repeat split; try constructor; now rewrite app_nil_r.
  - rewrite delete_each_cons in H. cbv zeta in H.
    destruct (soft (delete p (trace st) m)) eqn:Hs.
    + apply IH in H. destruct H as (evs & dels & Hr & Ht & Hd). simpl in Ht, Hd.
      exists (Delete m (delete p (trace st) m) :: evs), (m :: dels).
      repeat split.
      * now constructor.
      * rewrite Ht, <- app_assoc. reflexivity.
      * rewrite Hd, <- app_assoc. reflexivity.
    + inversion H; subst. simpl.
      destruct (delete p (trace st) m); try discriminate.
      exists [Delete m HTTPException], []. repeat split.
      * constructor.
      * now rewrite app_nil_r.
  Qed.

Lemma delete_chunk_run p chunk st :
  ChannelPurger.delete_chunk p chunk st =
  let r := match chunk with
           | [m] => delete p (trace st) m
           | _ => delete_messages p (trace st) chunk
           end in
  (r, mkState (deleted st) (trace st ++ [first_attempt chunk r])).
Proof.
  unfold ChannelPurger.delete_chunk, first_attempt.
  destruct chunk as [|m [|m' l]]; reflexivity.
Qed.

Lemma bulk_chunks_shape p messages starts : forall st ok st',
  ChannelPurger.bulk_chunks p messages starts st = (ok, st') ->
  exists evs dels,
    chunks_run
      (map (fun i => ChannelPurger.slice messages i (i + 100)) starts)
      evs dels ok /\
    trace st' = trace st ++ evs /\
    deleted st' = deleted st ++ dels.
Proof.
  induction starts as [|i rest IH]; intros st ok st' H.
  - simpl in H. unfold ret in H. inversion H; subst.
    exists [], []. repeat split; try constructor; now rewrite app_nil_r.
  - simpl in H. unfold bind in H. rewrite delete_chunk_run in H.
    cbv zeta in H.
    set (chunk := ChannelPurger.slice messages i (i + 100)) in *.
    remember (match chunk with
              | [m] => delete p (trace st) m
              | _ => delete_messages p (trace st) chunk
              end) as r eqn:Er.
    clear Er.
    assert (Hfall :
      forall st1, trace st1 = trace st ++ [first_attempt chunk r] ->
        deleted st1 = deleted st -> r <> Done ->
        (let (ok0, st2) := ChannelPurger.delete_each p chunk st1 in
         (if ok0 then ChannelPurger.bulk_chunks p messages rest
          else ret false) st2) = (ok, st') ->
        exists evs dels,
          chunks_run (chunk :: map (fun i => ChannelPurger.slice messages i (i + 100)) rest)
            evs dels ok /\
          trace st' = trace st ++ evs /\ deleted st' = deleted st ++ dels).
    { intros st1 Ht1 Hd1 Hr H1.
      destruct (ChannelPurger.delete_each p chunk st1) as [ok0 st2] eqn:E.
      apply delete_each_shape in E. destruct E as (e1 & d1 & Hrun & Ht2 & Hd2).
      destruct ok0.
      - apply IH in H1. destruct H1 as (e2 & d2 & Hrest & Ht & Hd).
        exists ((first_attempt chunk r :: e1) ++ e2), (d1 ++ d2). repeat split.
        + apply chunks_next; [now apply chunk_fallback | exact Hrest].
        + rewrite Ht, Ht2, Ht1. simpl. rewrite <- !app_assoc. reflexivity.
        + rewrite Hd, Hd2, Hd1. now rewrite app_assoc.
      - unfold ret in H1. inversion H1; subst ok st'.
        exists (first_attempt chunk r :: e1), d1. repeat split.
        + apply chunks_abort. now apply chunk_fallback.
        + rewrite Ht2, Ht1. rewrite <- app_assoc. reflexivity.
        + rewrite Hd2, Hd1. reflexivity. }
    simpl map. fold chunk.
    destruct r.
    + unfold extend_deleted in H. apply IH in H.
      destruct H as (e2 & d2 & Hrest & Ht & Hd). simpl in Ht, Hd.
      exists ([first_attempt chunk Done] ++ e2), (chunk ++ d2). repeat split.
      * apply chunks_next; [apply chunk_done | exact Hrest].
      * rewrite Ht, <- app_assoc. reflexivity.
      * rewrite Hd, <- app_assoc. reflexivity.
    + eapply Hfall; [| | discriminate | exact H]; reflexivity.
    + eapply Hfall; [| | discriminate | exact H]; reflexivity.
Qed.

(** ** What the shapes say *)

Lemma each_run_prefix msgs evs dels ok :
  each_run msgs evs dels ok -> prefix dels msgs.
Proof.
  induction 1 as [|m r rest evs dels ok Hs _ IH|m rest].
  - now exists [].
  - destruct IH as [tl ->]. now exists tl.
  - now exists (m :: rest).
Qed.

Lemma soft_accepted m r : soft r = true -> accepted_delete m (Delete m r).
Proof. destruct r; [left|right|discriminate]; reflexivity. Qed.

Lemma each_run_true msgs evs dels :
  each_run msgs evs dels true ->
  dels = msgs /\ Forall2 accepted_delete msgs evs.
Proof.
  remember true as ok eqn:Hok. induction 1 as [|m r rest evs dels ok Hs _ IH|m rest].
  - auto.
  - destruct (IH Hok) as (-> & Hm). split; auto.
    constructor; auto using soft_accepted.
  - discriminate.
Qed.

Lemma each_run_false msgs evs dels :
  each_run msgs evs dels false ->
  exists m post soft_evs,
    msgs = dels ++ m :: post /\
    evs = soft_evs ++ [Delete m HTTPException] /\
    Forall2 accepted_delete dels soft_evs.
Proof.
  remember false as ok eqn:Hok. induction 1 as [|m r rest evs dels ok Hs _ IH|m rest].
  - discriminate.
  - destruct (IH Hok) as (m' & post & se & -> & -> & Hm).
    exists m', post, (Delete m r :: se). simpl. repeat split; auto.
    constructor; auto using soft_accepted.
  - exists m, rest, []. auto.
Qed.

Lemma each_run_settled msgs evs dels ok :
  each_run msgs evs dels ok -> flat_map settled evs = dels.
Proof.
  induction 1 as [|m r rest evs dels ok Hs _ IH|m rest]; simpl; auto.
  now rewrite Hs, IH.
Qed.

Lemma attempt_of_first_attempt c r : attempt_of (first_attempt c r) = [c].
Proof. destruct c as [|m [|m' l]]; reflexivity. Qed.

Lemma each_run_no_attempt msgs evs dels ok :
  each_run msgs evs dels ok -> flat_map attempt_of evs = [].
Proof. induction 1; simpl; auto. Qed.

Lemma each_run_events msgs evs dels ok :
  each_run msgs evs dels ok ->
  Forall (fun e => exists m r, In m msgs /\ e = Delete m r) evs.
Proof.
  induction 1 as [|m r rest evs dels ok Hs _ IH|m rest]; constructor.
  - exists m, r. simpl. auto.
  - eapply Forall_impl; [|exact IH]. intros e (m' & r' & Hin & ->).
    exists m', r'. simpl. auto.
  - exists m, HTTPException. simpl. auto.
  - constructor.
Qed.

Lemma chunk_run_attempt c evs dels ok :
  chunk_run c evs dels ok -> flat_map attempt_of evs = [c].
Proof.
  destruct 1 as [c|c r evs dels ok Hr Hrun]; simpl;
    rewrite attempt_of_first_attempt; simpl; auto.
  now rewrite (each_run_no_attempt _ _ _ _ Hrun).
Qed.

Lemma chunk_run_settled c evs dels ok :
  chunk_run c evs dels ok -> flat_map settled evs = dels.
Proof.
  destruct 1 as [c|c r evs dels ok Hr Hrun]; simpl.
  - rewrite app_nil_r. destruct c as [|m [|m' l]]; reflexivity.
  - rewrite (each_run_settled _ _ _ _ Hrun).
    destruct c as [|m [|m' l]]; destruct r; simpl; congruence.
Qed.

Lemma chunk_run_prefix c evs dels ok :
  chunk_run c evs dels ok -> prefix dels c /\ (ok = true -> dels = c).
Proof.
  destruct 1 as [c|c r evs dels ok Hr Hrun].
  - split; auto. exists []. now rewrite app_nil_r.
  - split; [eapply each_run_prefix; eauto|].
    intros ->. now apply each_run_true in Hrun.
Qed.

Lemma chunk_run_events c evs dels ok :
  chunk_run c evs dels ok -> Forall (bulk_event [c]) evs.
Proof.
  destruct 1 as [c|c r evs dels ok Hr Hrun].
  - constructor; [|constructor]. right. exists c, Done. simpl. auto.
  - constructor.
    + right. exists c, r. simpl. auto.
    + eapply Forall_impl; [|exact (each_run_events _ _ _ _ Hrun)].
      intros e (m & r' & Hin & ->). left. exists c, m, r'. simpl. auto.
Qed.

Lemma bulk_event_mono cs cs' e :
  incl cs cs' -> bulk_event cs e -> bulk_event cs' e.
Proof.
  intros Hi [(c & m & r & Hc & Hm & ->)|(c & r & Hc & ->)]; [left|right].
  - exists c, m, r. auto.
  - exists c, r. auto.
Qed.

Lemma chunks_run_events cs evs dels ok :
  chunks_run cs evs dels ok -> Forall (bulk_event cs) evs.
Proof.
  induction 1 as [|c cs e1 d1 e2 d2 ok H1 _ IH|c cs e1 d1 H1].
  - constructor.
  - apply Forall_app. split.
    + eapply Forall_impl; [|exact (chunk_run_events _ _ _ _ H1)].
      intros e. apply bulk_event_mono. intros x [->|[]]. now left.
    + eapply Forall_impl; [|exact IH].
      intros e. apply bulk_event_mono. intros x Hx. now right.
  - eapply Forall_impl; [|exact (chunk_run_events _ _ _ _ H1)].
    intros e. apply bulk_event_mono. intros x [->|[]]. now left.
Qed.

Lemma chunks_run_attempts cs evs dels ok :
  chunks_run cs evs dels ok ->
  prefix (flat_map attempt_of evs) cs /\
  (ok = true -> flat_map attempt_of evs = cs).
Proof.
  induction 1 as [|c cs e1 d1 e2 d2 ok H1 _ [[tl IH] IHt]|c cs e1 d1 H1].
  - split; auto. now exists [].
  - rewrite flat_map_app, (chunk_run_attempt _ _ _ _ H1). simpl. split.
    + exists tl. now rewrite IH at 1.
    + intros Hok. now rewrite IHt.
  - rewrite (chunk_run_attempt _ _ _ _ H1). split; [|discriminate].
    now exists cs.
Qed.

Lemma chunks_run_settled cs evs dels ok :
  chunks_run cs evs dels ok -> flat_map settled evs = dels.
Proof.
  induction 1 as [|c cs e1 d1 e2 d2 ok H1 _ IH|c cs e1 d1 H1].
  - reflexivity.
  - now rewrite flat_map_app, (chunk_run_settled _ _ _ _ H1), IH.
  - exact (chunk_run_settled _ _ _ _ H1).
Qed.

Lemma chunks_run_prefix cs evs dels ok :
  chunks_run cs evs dels ok ->
  prefix dels (concat cs) /\ (ok = true -> dels = concat cs).
Proof.
  induction 1 as [|c cs e1 d1 e2 d2 ok H1 _ [[tl IH] IHt]|c cs e1 d1 H1].
  - split; auto. now exists [].
  - destruct (chunk_run_prefix _ _ _ _ H1) as [_ Hc]. rewrite (Hc eq_refl).
    simpl. split.
    + exists tl. now rewrite IH, app_assoc.
    + intros Hok. now rewrite IHt.
  - destruct (chunk_run_prefix _ _ _ _ H1) as [[tl Hc] _]. split; [|discriminate].
    exists (tl ++ concat cs). simpl. now rewrite Hc, app_assoc.
Qed.

(** ** Chunking *)

Lemma firstn_add_skipn {A : Type} (s m : nat) : forall l : list A,
  firstn (s + m) l = firstn s l ++ firstn m (skipn s l).
Proof.
  induction s as [|s IH]; intros [|x l]; simpl; auto.
  - now rewrite firstn_nil.
  - now rewrite IH.
Qed.

Lemma concat_slices {A : Type} (l : list A) (s n : nat) : forall a,
  concat (map (fun i => ChannelPurger.slice l i (i + s))
              (map (fun k => k * s) (seq a n)))
  = firstn (n * s) (skipn (a * s) l).
Proof.
  induction n as [|n IH]; intros a; simpl; auto.
  rewrite IH. unfold ChannelPurger.slice.
  replace (a * s + s - a * s) with s by lia.
  rewrite firstn_add_skipn, skipn_skipn.
  now replace (s + a * s) with (S a * s) by lia.
Qed.

Lemma chunk_count_covers n : n <= (n + 100 - 1) / 100 * 100.
Proof.
  pose proof (Nat.div_mod_eq (n + 100 - 1) 100) as H.
  pose proof (Nat.mod_upper_bound (n + 100 - 1) 100). lia.
Qed.

Lemma chunks_concat messages : concat (chunks messages) = messages.
Proof.
  unfold chunks, ChannelPurger.chunk_starts, ChannelPurger.range0.
  rewrite concat_slices. simpl skipn.
  apply firstn_all2, chunk_count_covers.
Qed.

Lemma chunks_sizes messages :
  Forall (fun c => 1 <= length c <= 100) (chunks messages).
Proof.
  unfold chunks, ChannelPurger.chunk_starts, ChannelPurger.range0.
  rewrite map_map. apply Forall_forall. intros c Hc.
  apply in_map_iff in Hc. destruct Hc as (k & <- & Hk).
  apply in_seq in Hk. unfold ChannelPurger.slice.
  replace (k * 100 + 100 - k * 100) with 100 by lia.
  rewrite length_firstn, length_skipn.
  assert (k * 100 < length messages).
  { pose proof (Nat.div_mod_eq (length messages + 100 - 1) 100) as H.
    pose proof (Nat.mod_upper_bound (length messages + 100 - 1) 100). lia. }
  lia.
Qed.

Lemma chunks_full messages k :
  S k < length (chunks messages) ->
  length (nth k (chunks messages) []) = 100.
Proof.
  unfold chunks, ChannelPurger.chunk_starts, ChannelPurger.range0.
  rewrite map_map, length_map, length_seq. intros Hk.
  set (f := fun x => ChannelPurger.slice messages (x * 100) (x * 100 + 100)).
  rewrite (nth_indep _ [] (f 0)) by (rewrite length_map, length_seq; lia).
  rewrite map_nth, seq_nth by lia. simpl. unfold f, ChannelPurger.slice.
  replace (k * 100 + 100 - k * 100) with 100 by lia.
  rewrite length_firstn, length_skipn.
  pose proof (Nat.div_mod_eq (length messages + 100 - 1) 100) as H.
  pose proof (Nat.mod_upper_bound (length messages + 100 - 1) 100). lia.
Qed.

(** ** Scanning *)

Lemma scan_shape check limit items : forall acc st messages st',
  ChannelPurger.scan check limit items acc st = (messages, st') ->
  exists examined,
    prefix examined items /\
    trace st' = trace st ++ map HistoryItem examined /\
    deleted st' = deleted st /\
    messages = acc ++ filter check examined /\
    (forall pre post, examined = pre ++ post -> post <> [] ->
       filter check pre = [] \/
       (Z.of_nat (length (acc ++ filter check pre)) < limit)%Z) /\
    ((examined = items /\
      (messages = acc \/ (Z.of_nat (length messages) < limit)%Z)) \/
     (exists pre m, examined = pre ++ [m] /\ check m = true /\
        (Z.of_nat (length messages) >= limit)%Z)).
Proof.
  induction items as [|x rest IH]; intros acc st messages st' H.
  - simpl in H. unfold ret in H. inversion H; subst.
    exists []. simpl. rewrite !app_nil_r. repeat split; auto.
    + now exists [].
    + intros pre post Hp Hne. destruct pre, post; try discriminate.
      now elim Hne.
  - simpl in H. unfold bind, emit in H.
    destruct (check x) eqn:Hc.
    + destruct (Z.of_nat (length (acc ++ [x])) >=? limit)%Z eqn:Hl.
      * unfold ret in H. inversion H; subst. exists [x]. simpl. rewrite Hc.
        repeat split; auto.
        -- now exists rest.
        -- intros pre post Hp Hne. destruct pre as [|y pre]; auto.
           destruct pre; destruct post; try discriminate. now elim Hne.
        -- right. exists [], x. repeat split; auto. lia.
      * apply IH in H.
        destruct H as (ex & [tl Hpre] & Ht & Hd & Hm & Hcont & Hstop).
        simpl in Ht, Hd. exists (x :: ex). simpl. rewrite Hc. repeat split.
        -- exists tl. now rewrite Hpre.
        -- rewrite Ht, <- app_assoc. reflexivity.
        -- exact Hd.
        -- rewrite Hm, <- app_assoc. reflexivity.
        -- intros pre post Hp Hne. destruct pre as [|y pre]; auto.
           inversion Hp; subst y ex. simpl. rewrite Hc.
           destruct (Hcont pre post eq_refl Hne) as [Hn|Hn].
           ++ right. rewrite Hn. lia.
           ++ right. now rewrite <- app_assoc in Hn.
        -- destruct Hstop as [[-> Hs]|(pre & m & -> & Hm' & Hs)].
           ++ left. split; auto. right. destruct Hs as [->|Hs]; lia.
           ++ right. exists (x :: pre), m. auto.
    + apply IH in H.
      destruct H as (ex & [tl Hpre] & Ht & Hd & Hm & Hcont & Hstop).
      simpl in Ht, Hd. exists (x :: ex). simpl. rewrite Hc. repeat split; auto.
      * exists tl. now rewrite Hpre.
      * rewrite Ht, <- app_assoc. reflexivity.
      * intros pre post Hp Hne. destruct pre as [|y pre]; auto.
        inversion Hp; subst y ex. simpl. rewrite Hc. eauto.
      * destruct Hstop as [[-> Hs]|(pre & m & -> & Hm' & Hs)]; auto.
        right. exists (x :: pre), m. auto.
Qed.

(** ** The whole of [purge] *)

Lemma _bulk_delete_run p messages st :
  ChannelPurger._bulk_delete p messages st =
  (tt, snd (ChannelPurger.bulk_chunks p messages
              (ChannelPurger.chunk_starts messages) st)).
Proof.
  unfold ChannelPurger._bulk_delete, bind, ret.
  now destruct (ChannelPurger.bulk_chunks _ _ _ _).
Qed.

Lemma purge_run p limit check st :
  ChannelPurger.purge p limit check st =
  let now := clock p (trace st) in
  let st0 := mkState (deleted st) (trace st ++ [Utcnow now]) in
  let (messages, st1) := ChannelPurger.collect p limit check st0 in
  match messages with
  | [] => (deleted st1, st1)
  | _ :: _ => delete_phase p now messages st1
  end.
Proof.
  unfold ChannelPurger.purge, bind, call_utcnow. cbv zeta.
  destruct (ChannelPurger.collect _ _ _ _) as [messages st1].
  destruct messages; reflexivity.
Qed.

Lemma collect_shape p limit check st messages st' :
  ChannelPurger.collect p limit check st = (messages, st') ->
  exists examined,
    prefix examined (ChannelPurger.history_iter p (ChannelPurger.scan_limit limit)) /\
    trace st' = trace st ++
      HistoryOpen (ChannelPurger.scan_limit limit) :: map HistoryItem examined /\
    deleted st' = deleted st /\
    messages = filter check examined /\
    (forall pre post, examined = pre ++ post -> post <> [] ->
       filter check pre = [] \/ (Z.of_nat (length (filter check pre)) < limit)%Z) /\
    ((examined = ChannelPurger.history_iter p (ChannelPurger.scan_limit limit) /\
      (messages = [] \/ (Z.of_nat (length messages) < limit)%Z)) \/
     (exists pre m, examined = pre ++ [m] /\ check m = true /\
        (Z.of_nat (length messages) >= limit)%Z)).
Proof.
  unfold ChannelPurger.collect, bind, emit. intros H.
  apply scan_shape in H. destruct H as (ex & Hp & Ht & Hd & Hm & Hc & Hs).
  simpl in *. exists ex. repeat split; auto.
  rewrite Ht, <- app_assoc. reflexivity.
Qed.

Lemma delete_phase_shape p now messages st out st' :
  delete_phase p now messages st = (out, st') ->
  exists bulk_evs bulk_dels bulk_ok old_evs old_dels old_ok,
    chunks_run
      (chunks (ChannelPurger.bulk_msgs (ChannelPurger.bulk_cutoff now) messages))
      bulk_evs bulk_dels bulk_ok /\
    each_run (ChannelPurger.old_msgs (ChannelPurger.bulk_cutoff now) messages)
      old_evs old_dels old_ok /\
    trace st' = trace st ++ bulk_evs ++ old_evs /\
    deleted st' = deleted st ++ bulk_dels ++ old_dels /\
    out = deleted st'.
Proof.
  unfold delete_phase, bind, get_deleted. rewrite _bulk_delete_run.
  destruct (ChannelPurger.bulk_chunks _ _ _ _) as [bok st1] eqn:E1. simpl.
  destruct (ChannelPurger.delete_each _ _ _) as [ook st2] eqn:E2.
  intros H. inversion H; subst.
  apply bulk_chunks_shape in E1. destruct E1 as (be & bd & Hb & Ht1 & Hd1).
  apply delete_each_shape in E2. destruct E2 as (oe & od & Ho & Ht2 & Hd2).
  exists be, bd, bok, oe, od, ook. repeat split; auto.
  - rewrite Ht2, Ht1. now rewrite app_assoc.
  - rewrite Hd2, Hd1. now rewrite app_assoc.
Qed.

Lemma purge_shape p limit check st out st' :
  ChannelPurger.purge p limit check st = (out, st') ->
  let now := clock p (trace st) in
  let cutoff := ChannelPurger.bulk_cutoff now in
  exists examined bulk_evs bulk_dels bulk_ok old_evs old_dels old_ok,
    prefix examined (ChannelPurger.history_iter p (ChannelPurger.scan_limit limit)) /\
    chunks_run (chunks (ChannelPurger.bulk_msgs cutoff (filter check examined)))
      bulk_evs bulk_dels bulk_ok /\
    each_run (ChannelPurger.old_msgs cutoff (filter check examined))
      old_evs old_dels old_ok /\
    trace st' = trace st ++
      Utcnow now :: HistoryOpen (ChannelPurger.scan_limit limit) ::
      map HistoryItem examined ++ bulk_evs ++ old_evs /\
    deleted st' = deleted st ++ bulk_dels ++ old_dels /\
    out = deleted st'.
Proof.
  rewrite purge_run. cbv zeta.
  destruct (ChannelPurger.collect _ _ _ _) as [messages st1] eqn:E.
  apply collect_shape in E. destruct E as (ex & Hp & Ht & Hd & Hm & _ & _).
  simpl in Ht, Hd. intros H. exists ex.
  destruct messages as [|m ms].
  - inversion H; subst out st'. rewrite <- Hm.
    exists [], [], true, [], [], true. repeat split; auto.
    + constructor.
    + constructor.
    + rewrite Ht, !app_nil_r, <- app_assoc. reflexivity.
    + now rewrite Hd, !app_nil_r.
  - apply delete_phase_shape in H.
    destruct H as (be & bd & bok & oe & od & ook & Hb & Ho & Ht' & Hd' & Hout).
    rewrite <- Hm. exists be, bd, bok, oe, od, ook. repeat split; auto.
    + rewrite Ht', Ht, <- !app_assoc. reflexivity.
    + now rewrite Hd', Hd.
Qed.

(** ** Age partition *)

Lemma filter_subseq {A : Type} (f : A -> bool) (l : list A) :
  subseq (filter f l) l.
Proof.
  induction l as [|x l IH]; simpl; [constructor|].
  destruct (f x); now constructor.
Qed.

Lemma partition_permutation (cutoff : Z) (messages : list Message) :
  Permutation
    (ChannelPurger.bulk_msgs cutoff messages ++ ChannelPurger.old_msgs cutoff messages)
    messages.
Proof.
  unfold ChannelPurger.bulk_msgs, ChannelPurger.old_msgs.
  induction messages as [|m l IH]; simpl; auto.
  destruct (Z.gtb_spec (created_at m) cutoff) as [H|H];
    destruct (Z.leb_spec (created_at m) cutoff) as [H'|H']; try lia.
  - simpl. now constructor.
  - apply Permutation_sym, Permutation_cons_app, Permutation_sym, IH.
Qed.

Lemma Forall_not_utcnow_filter evs :
  Forall (fun e => is_utcnow e = false) evs -> filter is_utcnow evs = [].
Proof.
  induction 1 as [|e l He _ IH]; simpl; auto. now rewrite He.
Qed.

Lemma bulk_event_kind cs e :
  bulk_event cs e ->
  is_utcnow e = false /\ examined_of e = [] /\ is_prompt e = false.
Proof.
  intros [(c & m & r & _ & _ & ->)|(c & r & _ & ->)]; simpl; auto.
  destruct c as [|m [|m' l]]; simpl; auto.
Qed.

Lemma each_event_kind (msgs : list Message) e :
  (exists m r, In m msgs /\ e = Delete m r) ->
  is_utcnow e = false /\ examined_of e = [] /\ is_prompt e = false.
Proof. intros (m & r & _ & ->); simpl; auto. Qed.

(** C1. In every run of [purge] the clock is read exactly once and the
    cutoff is that reading minus 14 days; the deletion phase works on the
    two lists [bulk_msgs] and [old_msgs] of the matched messages.  A matched
    message is in [bulk_msgs] iff it was created strictly after the cutoff
    and in [old_msgs] iff it was created at or before the cutoff (so a
    message exactly at the cutoff is not bulk-eligible); no message is in
    both, every occurrence is in one of them, and both lists keep the scan
    order. *)
Theorem age_partition_total_disjoint_ordered :
  (forall p limit check st,
     exists evs,
       trace (snd (ChannelPurger.purge p limit check st)) = trace st ++ evs /\
       filter is_utcnow evs = [Utcnow (clock p (trace st))]) /\
  (forall p limit check st,
     let now := clock p (trace st) in
     let scanned := ChannelPurger.collect p limit check
                      (mkState (deleted st) (trace st ++ [Utcnow now])) in
     fst scanned <> [] ->
     ChannelPurger.purge p limit check st =
     delete_phase p now (fst scanned) (snd scanned)) /\
  (forall now, ChannelPurger.bulk_cutoff now = (now - 1209600000000)%Z) /\
  (forall now messages,
     let cutoff := ChannelPurger.bulk_cutoff now in
     let bulk := ChannelPurger.bulk_msgs cutoff messages in
     let old := ChannelPurger.old_msgs cutoff messages in
     (forall m, In m bulk <-> In m messages /\ (created_at m > cutoff)%Z) /\
     (forall m, In m old <-> In m messages /\ (created_at m <= cutoff)%Z) /\
     (forall m, In m messages -> created_at m = cutoff ->
                In m old /\ ~ In m bulk) /\
     (forall m, ~ (In m bulk /\ In m old)) /\
     (forall m, In m messages -> In m bulk \/ In m old) /\
     Permutation (bulk ++ old) messages /\
     subseq bulk messages /\
     subseq old messages).
Proof.
  split; [|split; [|split]].
  - intros p limit check st.
    destruct (ChannelPurger.purge p limit check st) as [out st'] eqn:E.
    apply purge_shape in E. cbv zeta in E.
    destruct E as (ex & be & bd & bok & oe & od & ook & _ & Hb & Ho & Ht & _).
    eexists. split; [exact Ht|]. simpl.
    rewrite !filter_app.
    rewrite (Forall_not_utcnow_filter (map HistoryItem ex)),
            (Forall_not_utcnow_filter be), (Forall_not_utcnow_filter oe); auto.
    + eapply Forall_impl; [|exact (each_run_events _ _ _ _ Ho)].
      intros e He. now apply each_event_kind in He.
    + eapply Forall_impl; [|exact (chunks_run_events _ _ _ _ Hb)].
      intros e He. now apply bulk_event_kind in He.
    + apply Forall_forall. intros e He. apply in_map_iff in He.
      destruct He as (m & <- & _). reflexivity.
  - intros p limit check st now scanned Hne. rewrite purge_run. cbv zeta.
    fold now. fold scanned. destruct scanned as [messages st1]. simpl in *.
    destruct messages; [now elim Hne | reflexivity].
  - intros now. unfold ChannelPurger.bulk_cutoff, ChannelPurger.BULK_DELETE_LIMIT.
    lia.
  - intros now messages cutoff bulk old.
    assert (Hb : forall m, In m bulk <-> In m messages /\ (created_at m > cutoff)%Z).
    { intros m. unfold bulk, ChannelPurger.bulk_msgs. rewrite filter_In.
      destruct (Z.gtb_spec (created_at m) cutoff); intuition (try lia; try discriminate). }
    assert (Ho : forall m, In m old <-> In m messages /\ (created_at m <= cutoff)%Z).
    { intros m. unfold old, ChannelPurger.old_msgs. rewrite filter_In.
      destruct (Z.leb_spec (created_at m) cutoff); intuition (try lia; try discriminate). }
    split; [exact Hb|]. split; [exact Ho|].
    split; [|split; [|split; [|split; [|split]]]].
    + intros m Hm Hc. split.
      * apply Ho. split; auto. lia.
      * intros Hm'. apply Hb in Hm'. lia.
    + intros m [H1 H2]. apply Hb in H1. apply Ho in H2. lia.
    + intros m Hm. destruct (Z_gt_le_dec (created_at m) cutoff).
      * left. now apply Hb.
      * right. now apply Ho.
    + apply partition_permutation.
    + apply filter_subseq.
    + apply filter_subseq.
Qed.

(** ** The Batch Deleter *)

Lemma first_attempt_batch c r c' r' :
  first_attempt c r = DeleteMessages c' r' -> c = c' /\ length c <> 1.
Proof.
  destruct c as [|m [|m' l]]; simpl; intros H; inversion H; subst; auto.
Qed.

Lemma first_attempt_single c r m r' :
  first_attempt c r = ChunkDelete m r' -> c = [m] /\ r = r'.
Proof.
  destruct c as [|m0 [|m' l]]; simpl; intros H; inversion H; subst; auto.
Qed.

Lemma answered_app p evs1 : forall tr evs2,
  answered p tr (evs1 ++ evs2) <->
  answered p tr evs1 /\ answered p (tr ++ evs1) evs2.
Proof.
  induction evs1 as [|e evs1 IH]; intros tr evs2; simpl.
  - rewrite app_nil_r. tauto.
  - rewrite IH, <- app_assoc. simpl. tauto.
Qed.

Lemma first_attempt_answered p tr chunk :
  answer_of p tr
    (first_attempt chunk
       match chunk with
       | [m] => delete p tr m
       | _ => delete_messages p tr chunk
       end).
Proof. destruct chunk as [|m [|m' l]]; reflexivity. Qed.

Lemma delete_each_full p msgs : forall st,
  exists evs dels,
    each_run msgs evs dels (fst (ChannelPurger.delete_each p msgs st)) /\
    trace (snd (ChannelPurger.delete_each p msgs st)) = trace st ++ evs /\
    deleted (snd (ChannelPurger.delete_each p msgs st)) = deleted st ++ dels /\
    answered p (trace st) evs.
Proof.
  induction msgs as [|m rest IH]; intros st.
  - exists [], []. simpl. rewrite !app_nil_r. repeat split. constructor.
  - rewrite delete_each_cons. cbv zeta.
    destruct (delete p (trace st) m) eqn:Hr; cbn [soft].
    + destruct (IH (mkState (deleted st ++ [m]) (trace st ++ [Delete m Done])))
        as (evs & dels & Hrun & Ht & Hd & Ha).
      exists (Delete m Done :: evs), (m :: dels). cbn [trace deleted] in *.
      rewrite Ht, Hd, <- !app_assoc.
      split; [now constructor|].
      split; [reflexivity|]. split; [reflexivity|].
      cbn [answered answer_of]. split; [now symmetry|exact Ha].
    + destruct (IH (mkState (deleted st ++ [m]) (trace st ++ [Delete m NotFound])))
        as (evs & dels & Hrun & Ht & Hd & Ha).
      exists (Delete m NotFound :: evs), (m :: dels). cbn [trace deleted] in *.
      rewrite Ht, Hd, <- !app_assoc.
      split; [now constructor|].
      split; [reflexivity|]. split; [reflexivity|].
      cbn [answered answer_of]. split; [now symmetry|exact Ha].
    + exists [Delete m HTTPException], []. cbn [fst snd trace deleted].
      rewrite app_nil_r.
      split; [constructor|].
      split; [reflexivity|]. split; [reflexivity|].
      cbn [answered answer_of]. split; [now symmetry|exact I].
Qed.

(** One turn of the loop of [_bulk_delete], on the chunk that starts at
    [i]. *)
Lemma bulk_chunks_step p messages i rest st :
  ChannelPurger.bulk_chunks p messages (i :: rest) st =
  let chunk := ChannelPurger.slice messages i (i + 100) in
  let r := match chunk with
           | [m] => delete p (trace st) m
           | _ => delete_messages p (trace st) chunk
           end in
  let st1 := mkState (deleted st) (trace st ++ [first_attempt chunk r]) in
  match r with
  | Done =>
      ChannelPurger.bulk_chunks p messages rest
        (mkState (deleted st ++ chunk) (trace st1))
  | NotFound | HTTPException =>
      let fallback := ChannelPurger.delete_each p chunk st1 in
      if fst fallback
      then ChannelPurger.bulk_chunks p messages rest (snd fallback)
      else (false, snd fallback)
  end.
Proof.
  simpl. unfold bind. rewrite delete_chunk_run. cbv zeta.
  destruct (match ChannelPurger.slice messages i (i + 100) with
            | [m] => delete p (trace st) m
            | _ => delete_messages p (trace st)
                     (ChannelPurger.slice messages i (i + 100))
            end); try reflexivity;
    destruct (ChannelPurger.delete_each _ _ _) as [ok st2];
    destruct ok; reflexivity.
Qed.

Lemma bulk_chunks_full p messages starts : forall st,
  exists evs dels,
    chunks_run
      (map (fun i => ChannelPurger.slice messages i (i + 100)) starts)
      evs dels (fst (ChannelPurger.bulk_chunks p messages starts st)) /\
    trace (snd (ChannelPurger.bulk_chunks p messages starts st))
      = trace st ++ evs /\
    deleted (snd (ChannelPurger.bulk_chunks p messages starts st))
      = deleted st ++ dels /\
    answered p (trace st) evs.
Proof.
  induction starts as [|i rest IH]; intros st.
  - exists [], []. simpl. rewrite !app_nil_r. repeat split. constructor.
  - rewrite bulk_chunks_step. cbv zeta. cbn [map].
    set (chunk := ChannelPurger.slice messages i (i + 100)).
    pose proof (first_attempt_answered p (trace st) chunk) as Hfa.
    set (r := match chunk with
              | [m] => delete p (trace st) m
              | _ => delete_messages p (trace st) chunk
              end) in *.
    clearbody r.
    assert (Hfall : r <> Done ->
      exists evs dels,
        chunks_run
          (chunk :: map (fun i => ChannelPurger.slice messages i (i + 100)) rest)
          evs dels
          (fst (let fallback := ChannelPurger.delete_each p chunk
                      (mkState (deleted st) (trace st ++ [first_attempt chunk r])) in
                if fst fallback
                then ChannelPurger.bulk_chunks p messages rest (snd fallback)
                else (false, snd fallback))) /\
        trace (snd (let fallback := ChannelPurger.delete_each p chunk
                      (mkState (deleted st) (trace st ++ [first_attempt chunk r])) in
                if fst fallback
                then ChannelPurger.bulk_chunks p messages rest (snd fallback)
                else (false, snd fallback))) = trace st ++ evs /\
        deleted (snd (let fallback := ChannelPurger.delete_each p chunk
                      (mkState (deleted st) (trace st ++ [first_attempt chunk r])) in
                if fst fallback
                then ChannelPurger.bulk_chunks p messages rest (snd fallback)
                else (false, snd fallback))) = deleted st ++ dels /\
        answered p (trace st) evs).
    { intros Hr. cbv zeta.
      destruct (delete_each_full p chunk
                  (mkState (deleted st) (trace st ++ [first_attempt chunk r])))
        as (e1 & d1 & Hrun1 & Ht1 & Hd1 & Ha1).
      cbn [trace deleted] in Ht1, Hd1, Ha1.
      destruct (fst (ChannelPurger.delete_each p chunk _)) eqn:Hok.
      - destruct (IH (snd (ChannelPurger.delete_each p chunk
                        (mkState (deleted st)
                           (trace st ++ [first_attempt chunk r])))))
          as (e2 & d2 & Hrun2 & Ht2 & Hd2 & Ha2).
        exists ((first_attempt chunk r :: e1) ++ e2), (d1 ++ d2).
        split; [|split; [|split]].
        + apply chunks_next; [now apply chunk_fallback|exact Hrun2].
        + rewrite Ht2, Ht1. cbn [app]. rewrite <- !app_assoc. reflexivity.
        + rewrite Hd2, Hd1. now rewrite app_assoc.
        + cbn [app answered]. split; [exact Hfa|].
          apply answered_app. split; [exact Ha1|].
          rewrite Ht1 in Ha2. exact Ha2.
      - exists (first_attempt chunk r :: e1), d1. cbn [fst snd].
        split; [|split; [|split]].
        + apply chunks_abort. now apply chunk_fallback.
        + rewrite Ht1, <- app_assoc. reflexivity.
        + exact Hd1.
        + cbn [answered]. auto. }
    destruct r; [|apply Hfall; discriminate|apply Hfall; discriminate].
    destruct (IH (mkState (deleted st ++ chunk)
                    (trace st ++ [first_attempt chunk Done])))
      as (e2 & d2 & Hrun2 & Ht2 & Hd2 & Ha2).
    cbn [trace deleted] in *.
    exists ([first_attempt chunk Done] ++ e2), (chunk ++ d2).
    split; [|split; [|split]].
    + apply chunks_next; [apply chunk_done|exact Hrun2].
    + rewrite Ht2, <- app_assoc. reflexivity.
    + rewrite Hd2, <- app_assoc. reflexivity.
    + cbn [app answered]. auto.
Qed.

Lemma chunks_run_starts c cs evs dels ok :
  chunks_run (c :: cs) evs dels ok ->
  exists r rest, evs = first_attempt c r :: rest.
Proof.
  intros H. inversion H as [|? ? e1 d1 e2 d2 ? H1 _|? ? e1 d1 H1]; subst;
    inversion H1; subst; simpl; eauto.
Qed.

Lemma chunks_run_stops_at_hard_failure cs evs dels :
  chunks_run cs evs dels false ->
  exists pre m, evs = pre ++ [Delete m HTTPException].
Proof.
  remember false as ok eqn:Hok.
  induction 1 as [|c cs e1 d1 e2 d2 ok H1 _ IH|c cs e1 d1 H1].
  - discriminate.
  - destruct (IH Hok) as (pre & m & ->). exists (e1 ++ pre), m.
    now rewrite app_assoc.
  - inversion H1 as [|? r evs0 ? ? Hr Hrun]; subst.
    apply each_run_false in Hrun. destruct Hrun as (m & post & se & _ & -> & _).
    exists (first_attempt c r :: se), m. reflexivity.
Qed.

(** C2. [_bulk_delete] walks through [chunks messages]: consecutive pieces
    of the list, in order, each of 1 to 100 messages and all but the last
    of exactly 100.  Each turn of its loop makes the first attempt on the
    next chunk, with the single-message delete for a chunk of exactly one
    message and with the batch call otherwise, and appends the chunk when
    that call succeeds.  The events of a run are the blocks of the chunks in
    order, each starting with that first attempt and each recording the
    answers of the platform; the run goes on to the last chunk unless a
    per-message delete of a fallback fails hard, which is then its last
    event.  Every batch call [delete_messages] is made on one of the chunks
    and carries between 2 and 100 messages; a chunk of exactly one message
    is attempted with the single-message delete and never with the batch
    call. *)
Theorem bulk_delete_chunks_of_at_most_100 (p : Platform)
  (messages : list Message) (st : State) :
  let run := ChannelPurger.bulk_chunks p messages
               (ChannelPurger.chunk_starts messages) st in
  ChannelPurger._bulk_delete p messages st = (tt, snd run) /\
  concat (chunks messages) = messages /\
  Forall (fun c => 1 <= length c <= 100) (chunks messages) /\
  (forall k, S k < length (chunks messages) ->
             length (nth k (chunks messages) []) = 100) /\
  map (fun i => ChannelPurger.slice messages i (i + 100))
      (ChannelPurger.chunk_starts messages) = chunks messages /\
  (forall s, ChannelPurger.bulk_chunks p messages [] s = (true, s)) /\
  (forall i rest s,
     ChannelPurger.bulk_chunks p messages (i :: rest) s =
     let chunk := ChannelPurger.slice messages i (i + 100) in
     let r := match chunk with
              | [m] => delete p (trace s) m
              | _ => delete_messages p (trace s) chunk
              end in
     let s1 := mkState (deleted s) (trace s ++ [first_attempt chunk r]) in
     match r with
     | Done =>
         ChannelPurger.bulk_chunks p messages rest
           (mkState (deleted s ++ chunk) (trace s1))
     | NotFound | HTTPException =>
         let fallback := ChannelPurger.delete_each p chunk s1 in
         if fst fallback
         then ChannelPurger.bulk_chunks p messages rest (snd fallback)
         else (false, snd fallback)
     end) /\
  exists evs dels,
    trace (snd run) = trace st ++ evs /\
    deleted (snd run) = deleted st ++ dels /\
    chunks_run (chunks messages) evs dels (fst run) /\
    answered p (trace st) evs /\
    (forall c cs, chunks messages = c :: cs ->
       exists rest,
         evs = first_attempt c
                 match c with
                 | [m] => delete p (trace st) m
                 | _ => delete_messages p (trace st) c
                 end :: rest) /\
    (messages <> [] -> chunks messages <> []) /\
    (fst run = false -> exists pre m, evs = pre ++ [Delete m HTTPException]) /\
    prefix (flat_map attempt_of evs) (chunks messages) /\
    (fst run = true ->
       flat_map attempt_of evs = chunks messages /\ dels = messages) /\
    (forall c r, In (DeleteMessages c r) evs ->
       In c (chunks messages) /\ 2 <= length c <= 100) /\
    (forall m r, In (ChunkDelete m r) evs -> In [m] (chunks messages)) /\
    (fst run = true -> forall m, In [m] (chunks messages) ->
       exists r, In (ChunkDelete m r) evs) /\
    (forall m, In [m] (flat_map attempt_of evs) ->
       (exists r, In (ChunkDelete m r) evs) /\
       (forall r, ~ In (DeleteMessages [m] r) evs)).
Proof.
  intros run.
  split; [apply _bulk_delete_run|].
  split; [apply chunks_concat|].
  split; [apply chunks_sizes|].
  split; [apply chunks_full|].
  split; [reflexivity|].
  split; [reflexivity|].
  split; [intros i rest s; apply bulk_chunks_step|].
  destruct (bulk_chunks_full p messages (ChannelPurger.chunk_starts messages) st)
    as (evs & dels & Hrun & Ht & Hd & Hans).
  fold (chunks messages) in Hrun. fold run in Hrun, Ht, Hd.
  exists evs, dels.
  split; [exact Ht|]. split; [exact Hd|]. split; [exact Hrun|].
  split; [exact Hans|].
  pose proof (chunks_run_events _ _ _ _ Hrun) as Hev.
  pose proof (chunks_run_attempts _ _ _ _ Hrun) as [Hpre Hall].
  pose proof (chunks_run_prefix _ _ _ _ Hrun) as [_ Hdels].
  pose proof (chunks_sizes messages) as Hsz.
  rewrite Forall_forall in Hev, Hsz.
  assert (Hbatch : forall c r, In (DeleteMessages c r) evs ->
            In c (chunks messages) /\ 2 <= length c <= 100).
  { intros c r Hin. apply Hev in Hin.
    destruct Hin as [(c' & m & r' & _ & _ & Habs)|(c' & r' & Hc & Heq)];
      [discriminate|].
    symmetry in Heq. apply first_attempt_batch in Heq. destruct Heq as [-> Hn].
    split; auto. specialize (Hsz _ Hc). simpl in Hsz. lia. }
  split.
  { intros c cs Hcs. rewrite Hcs in Hrun.
    destruct (chunks_run_starts _ _ _ _ _ Hrun) as (r & rest & ->).
    exists rest. f_equal. f_equal.
    cbn [answered] in Hans. destruct Hans as [Ha _].
    destruct c as [|m [|m' l]]; exact Ha. }
  split.
  { intros Hne Hnil. apply Hne. rewrite <- (chunks_concat messages), Hnil.
    reflexivity. }
  split; [intros Hstop; rewrite Hstop in Hrun;
          exact (chunks_run_stops_at_hard_failure _ _ _ Hrun)|].
  split; [exact Hpre|].
  split.
  { intros Hok. split; [now apply Hall|].
    rewrite (Hdels Hok). apply chunks_concat. }
  split; [exact Hbatch|].
  split.
  { intros m r Hin. apply Hev in Hin.
    destruct Hin as [(c' & m' & r' & _ & _ & Habs)|(c' & r' & Hc & Heq)];
      [discriminate|].
    symmetry in Heq. apply first_attempt_single in Heq.
    destruct Heq as [-> _]. exact Hc. }
  assert (Hsingle : forall m, In [m] (flat_map attempt_of evs) ->
            exists r, In (ChunkDelete m r) evs).
  { intros m Hin. apply in_flat_map in Hin. destruct Hin as (e & He & Hin).
    pose proof (Hev _ He) as [(c' & m' & r' & _ & _ & ->)|(c' & r' & Hc & ->)];
      [destruct Hin|].
    rewrite attempt_of_first_attempt in Hin. destruct Hin as [->|[]].
    exists r'. exact He. }
  split.
  { intros Hok m Hin. apply Hsingle. now rewrite (Hall Hok). }
  intros m Hin. split.
  - now apply Hsingle.
  - intros r Hin'. apply Hbatch in Hin'. simpl in Hin'. lia.
Qed.

(** 150 recent messages on a platform where every call succeeds: two batch
    calls, of 100 and of 50 messages, and all 150 returned in scan order. *)
Example two_chunks_for_150_messages :
  let run := ChannelPurger.purge (Scenario.calm (Scenario.msgs 150 5)) 150
               Scenario.everything Scenario.fresh in
  map (@length Message) (flat_map attempt_of (trace (snd run))) = [100; 50] /\
  flat_map single_of (trace (snd run)) = [] /\
  fst run = Scenario.msgs 150 5.
Proof.
  cbv zeta. split; [|split]; vm_compute; reflexivity.
Qed.

(** C3, as worded, fails: with the batch call failing and the delete of the
    first of two messages failing hard, the second message of the chunk is
    never attempted. *)
Lemma fallback_skips_rest_of_chunk :
  ~ fallback_attempts_every_item
      (Scenario.batch_down []) [Scenario.msg 1 5; Scenario.msg 2 5]
      Scenario.fresh.
Proof.
  intros H.
  specialize (H [Scenario.msg 1 5; Scenario.msg 2 5] HTTPException).
  cbv zeta in H.
  destruct (H (or_introl eq_refl) (or_introl eq_refl) ltac:(discriminate)
              (Scenario.msg 2 5) (or_intror (or_introl eq_refl)))
    as [r' Hin].
  vm_compute in Hin.
  destruct Hin as [Habs|[Habs|[]]]; discriminate.
Qed.

Lemma bulk_chunks_cons p messages i rest st :
  ChannelPurger.bulk_chunks p messages (i :: rest) st =
  let chunk := ChannelPurger.slice messages i (i + 100) in
  let (r, st1) := ChannelPurger.delete_chunk p chunk st in
  match r with
  | Done =>
      ChannelPurger.bulk_chunks p messages rest
        (mkState (deleted st1 ++ chunk) (trace st1))
  | NotFound | HTTPException =>
      let (ok, st2) := ChannelPurger.delete_each p chunk st1 in
      if ok then ChannelPurger.bulk_chunks p messages rest st2 else (false, st2)
  end.
Proof.
  simpl. unfold bind.
  destruct (ChannelPurger.delete_chunk _ _ _) as [r st1].
  destruct r; try reflexivity;
    destruct (ChannelPurger.delete_each _ _ _) as [ok st2];
    destruct ok; reflexivity.
Qed.

(** C3, amended.  When the first attempt on a chunk fails, the messages of
    the chunk are deleted one by one in the chunk's order, up to the first
    hard failure.  If none fails hard, every message of the chunk has been
    attempted and appended, and the loop goes on with the next chunk.  If
    one fails hard, [_bulk_delete] returns there: the trace ends with that
    failed delete, so neither the rest of the chunk nor any later chunk is
    attempted, and the messages before it stay appended. *)
Theorem failed_batch_falls_back_until_hard_failure (p : Platform)
  (messages : list Message) (i : nat) (rest : list nat) (st : State) :
  let chunk := ChannelPurger.slice messages i (i + 100) in
  let first := ChannelPurger.delete_chunk p chunk st in
  fst first <> Done ->
  let fallback := ChannelPurger.delete_each p chunk (snd first) in
  let final := ChannelPurger.bulk_chunks p messages (i :: rest) st in
  trace (snd first) = trace st ++ [first_attempt chunk (fst first)] /\
  (fst fallback = true ->
     final = ChannelPurger.bulk_chunks p messages rest (snd fallback) /\
     exists evs,
       Forall2 accepted_delete chunk evs /\
       trace (snd fallback) = trace (snd first) ++ evs /\
       deleted (snd fallback) = deleted st ++ chunk) /\
  (fst fallback = false ->
     fst final = false /\
     exists pre m post evs,
       chunk = pre ++ m :: post /\
       Forall2 accepted_delete pre evs /\
       trace (snd final) =
         trace (snd first) ++ evs ++ [Delete m HTTPException] /\
       deleted (snd final) = deleted st ++ pre).
Proof.
  intros chunk first Hfail fallback final.
  assert (Hfirst : first =
            (fst first, mkState (deleted st)
                          (trace st ++ [first_attempt chunk (fst first)]))).
  { unfold first. rewrite delete_chunk_run. reflexivity. }
  assert (Hfinal : final =
            if fst fallback
            then ChannelPurger.bulk_chunks p messages rest (snd fallback)
            else (false, snd fallback)).
  { unfold final. rewrite bulk_chunks_cons. cbv zeta.
    fold chunk. fold first. unfold fallback. clear Hfirst fallback final.
    clearbody first. destruct first as [r st1]. simpl in *.
    destruct (ChannelPurger.delete_each p chunk st1) as [ok st2]. simpl.
    destruct r; [now elim Hfail| |]; reflexivity. }
  assert (Hd1 : deleted (snd first) = deleted st) by now rewrite Hfirst.
  assert (Ht1 : trace (snd first) =
                trace st ++ [first_attempt chunk (fst first)])
    by now rewrite Hfirst at 1.
  clearbody final. subst final.
  destruct (ChannelPurger.delete_each p chunk (snd first)) as [ok st2] eqn:E2.
  subst fallback. simpl fst. simpl snd.
  apply delete_each_shape in E2. destruct E2 as (evs & dels & Hrun & Ht & Hd).
  split; [exact Ht1|]. split; intros ->.
  - split; [reflexivity|]. apply each_run_true in Hrun.
    destruct Hrun as [-> Hall]. exists evs. repeat split; auto.
    now rewrite Hd, Hd1.
  - simpl. split; auto. apply each_run_false in Hrun.
    destruct Hrun as (m & post & se & Hc & -> & Hall).
    exists dels, m, post, se. repeat split; auto.
    now rewrite Hd, Hd1.
Qed.

(** An instance: the batch call on two messages fails and the delete of the
    first one fails hard, so [_bulk_delete] stops there. *)
Lemma failed_batch_falls_back_instance :
  let p := Scenario.batch_down [] in
  let messages := [Scenario.msg 1 5; Scenario.msg 2 5] in
  fst (ChannelPurger.delete_chunk p
         (ChannelPurger.slice messages 0 (0 + 100)) Scenario.fresh) <> Done /\
  fst (ChannelPurger.bulk_chunks p messages [0] Scenario.fresh) = false.
Proof.
  intros p messages.
  assert (Hne : fst (ChannelPurger.delete_chunk p
                  (ChannelPurger.slice messages 0 (0 + 100)) Scenario.fresh)
                <> Done) by (vm_compute; discriminate).
  split; [exact Hne|].
  destruct (failed_batch_falls_back_until_hard_failure
              p messages 0 [] Scenario.fresh Hne) as (_ & _ & Hstop).
  apply Hstop. vm_compute. reflexivity.
Defined.

(** ** The Individual Deleter *)

(** C4. [_delete_single] appends the message and answers [True] when the
    delete succeeds or answers not-found, and leaves the deleted list as it
    is and answers [False] on any other error.  [delete_each] deletes one
    message at a time in order: it either goes through the whole list, or
    stops right at the first hard failure, with exactly the messages before
    it appended and nothing after it attempted.  For ten matched messages,
    all 20 days old, with the ninth delete failing hard, [purge] returns
    messages 1 to 8, makes per-message deletes on messages 1 to 9 only, and
    never attempts message 10. *)
Theorem individual_deleter_stops_at_hard_failure :
  (forall p msg st,
     let r := delete p (trace st) msg in
     (r = NotFound \/ r = Done ->
      ChannelPurger._delete_single p msg st =
      (true, mkState (deleted st ++ [msg]) (trace st ++ [Delete msg r])))
     /\
     (r = HTTPException ->
      ChannelPurger._delete_single p msg st =
      (false, mkState (deleted st) (trace st ++ [Delete msg r])))) /\
  (forall p msg rest st,
     ChannelPurger.delete_each p (msg :: rest) st =
     let (ok, st1) := ChannelPurger._delete_single p msg st in
     if ok then ChannelPurger.delete_each p rest st1 else (false, st1)) /\
  (forall p msgs st,
     let run := ChannelPurger.delete_each p msgs st in
     exists evs,
       trace (snd run) = trace st ++ evs /\
       (fst run = true ->
          Forall2 accepted_delete msgs evs /\
          deleted (snd run) = deleted st ++ msgs) /\
       (fst run = false ->
          exists pre m post soft_evs,
            msgs = pre ++ m :: post /\
            evs = soft_evs ++ [Delete m HTTPException] /\
            Forall2 accepted_delete pre soft_evs /\
            deleted (snd run) = deleted st ++ pre)) /\
  (let run := ChannelPurger.purge
                (Scenario.ninth_fails (Scenario.msgs 10 20)) 10
                Scenario.everything Scenario.fresh in
   fst run = Scenario.msgs 8 20 /\
   deleted (snd run) = Scenario.msgs 8 20 /\
   flat_map single_of (trace (snd run)) = Scenario.msgs 9 20 /\
   flat_map attempt_of (trace (snd run)) = [] /\
   (forall r, ~ In (Delete (Scenario.msg 10 20) r) (trace (snd run)))).
Proof.
  split; [|split; [|split]].
  - intros p msg st r. split; intros H; rewrite _delete_single_run; fold r.
    + destruct H as [-> | ->]; reflexivity.
    + rewrite H. reflexivity.
  - intros p msg rest st. simpl. unfold bind.
    destruct (ChannelPurger._delete_single p msg st) as [ok st1].
    destruct ok; reflexivity.
  - intros p msgs st run. destruct run as [ok st'] eqn:E. unfold run in E.
    apply delete_each_shape in E. destruct E as (evs & dels & Hrun & Ht & Hd).
    exists evs. simpl. split; [exact Ht|]. split; intros ->.
    + apply each_run_true in Hrun. destruct Hrun as [-> Hall]. auto.
    + apply each_run_false in Hrun.
      destruct Hrun as (m & post & se & Hm & He & Hall).
      exists dels, m, post, se. auto.
  - cbv zeta.
    split; [vm_compute; reflexivity|].
    split; [vm_compute; reflexivity|].
    split; [vm_compute; reflexivity|].
    split; [vm_compute; reflexivity|].
    intros r Hin.
    assert (Hm : In (Scenario.msg 10 20)
                   (flat_map single_of
                      (trace (snd (ChannelPurger.purge
                         (Scenario.ninth_fails (Scenario.msgs 10 20)) 10
                         Scenario.everything Scenario.fresh))))).
    { apply in_flat_map. exists (Delete (Scenario.msg 10 20) r).
      split; [exact Hin | left; reflexivity]. }
    vm_compute in Hm.
    repeat (destruct Hm as [Hm|Hm]; [discriminate|]). exact Hm.
Qed.

(** ** The two age partitions are deleted independently *)

Lemma delete_phase_run p now messages st :
  delete_phase p now messages st =
  let cutoff := ChannelPurger.bulk_cutoff now in
  let bulk := ChannelPurger.bulk_chunks p
                (ChannelPurger.bulk_msgs cutoff messages)
                (ChannelPurger.chunk_starts (ChannelPurger.bulk_msgs cutoff messages))
                st in
  let old := ChannelPurger.delete_each p
               (ChannelPurger.old_msgs cutoff messages) (snd bulk) in
  (deleted (snd old), snd old).
Proof.
  unfold delete_phase, bind, get_deleted. rewrite _bulk_delete_run. cbv zeta.
  destruct (ChannelPurger.delete_each _ _ _) as [ok st']. reflexivity.
Qed.

(** C5. When [_bulk_delete] returns early on a hard failure, [purge] still
    runs the one-by-one loop on the old messages, starting from the state
    the bulk phase left: the first old message is attempted right after the
    failed delete, and when no old delete fails hard every old message is
    attempted and appended. *)
Theorem old_items_attempted_after_bulk_abort (p : Platform) (limit : Z)
  (check : Message -> bool) (st : State) :
  let now := clock p (trace st) in
  let cutoff := ChannelPurger.bulk_cutoff now in
  let scanned := ChannelPurger.collect p limit check
                   (mkState (deleted st) (trace st ++ [Utcnow now])) in
  let recent := ChannelPurger.bulk_msgs cutoff (fst scanned) in
  let bulk := ChannelPurger.bulk_chunks p recent
                (ChannelPurger.chunk_starts recent) (snd scanned) in
  fst bulk = false ->
  let old := ChannelPurger.delete_each p
               (ChannelPurger.old_msgs cutoff (fst scanned)) (snd bulk) in
  let final := ChannelPurger.purge p limit check st in
  final = (deleted (snd old), snd old) /\
  (forall m rest,
     ChannelPurger.old_msgs cutoff (fst scanned) = m :: rest ->
     exists evs,
       trace (snd final) =
       trace (snd bulk) ++ Delete m (delete p (trace (snd bulk)) m) :: evs) /\
  (fst old = true ->
     exists evs,
       Forall2 accepted_delete (ChannelPurger.old_msgs cutoff (fst scanned)) evs /\
       trace (snd final) = trace (snd bulk) ++ evs /\
       deleted (snd final) =
         deleted (snd bulk) ++ ChannelPurger.old_msgs cutoff (fst scanned)).
Proof.
  intros now cutoff scanned recent bulk Habort old final.
  assert (Hfinal : final = (deleted (snd old), snd old)).
  { unfold final. rewrite purge_run. cbv zeta. fold now. fold scanned.
    destruct scanned as [messages st1] eqn:E. simpl in *.
    destruct messages as [|m ms]; [discriminate Habort|].
    rewrite delete_phase_run. reflexivity. }
  split; [exact Hfinal|]. rewrite Hfinal. clear Hfinal final.
  unfold old. clear old.
  generalize (ChannelPurger.old_msgs cutoff (fst scanned)) as olds.
  generalize (snd bulk) as st2. clear. intros st2 olds.
  destruct (ChannelPurger.delete_each p olds st2) as [ok st'] eqn:E.
  cbn [fst snd]. split.
  - intros m rest Hold. rewrite Hold, delete_each_cons in E. cbv zeta in E.
    destruct (soft (delete p (trace st2) m)).
    + apply delete_each_shape in E. destruct E as (evs & _ & _ & Ht & _).
      cbn [trace] in Ht. exists evs. rewrite Ht, <- app_assoc. reflexivity.
    + injection E as _ <-. exists []. reflexivity.
  - intros ->. apply delete_each_shape in E.
    destruct E as (evs & dels & Hrun & Ht & Hd).
    apply each_run_true in Hrun. destruct Hrun as [-> Hall].
    exists evs. auto.
Qed.

(** An instance: two recent messages whose batch call and first fallback
    delete fail, and one old message, which is deleted all the same. *)
Lemma old_items_attempted_after_bulk_abort_instance :
  let p := Scenario.batch_down
             [Scenario.msg 1 5; Scenario.msg 2 5; Scenario.msg 3 20] in
  let scanned := ChannelPurger.collect p 10 Scenario.everything
                   (mkState [] [Utcnow Scenario.noon]) in
  let recent := ChannelPurger.bulk_msgs
                  (ChannelPurger.bulk_cutoff Scenario.noon) (fst scanned) in
  fst (ChannelPurger.bulk_chunks p recent
         (ChannelPurger.chunk_starts recent) (snd scanned)) = false /\
  fst (ChannelPurger.purge p 10 Scenario.everything Scenario.fresh)
  = [Scenario.msg 3 20].
Proof.
  intros p scanned recent.
  assert (Habort : fst (ChannelPurger.bulk_chunks p recent
                          (ChannelPurger.chunk_starts recent) (snd scanned))
                   = false) by (vm_compute; reflexivity).
  split; [exact Habort|].
  rewrite (proj1 (old_items_attempted_after_bulk_abort
                    p 10 Scenario.everything Scenario.fresh Habort)).
  vm_compute. reflexivity.
Defined.

(** ** The deleted list *)

Lemma prefix_app {A : Type} (l r : list A) : prefix l (l ++ r).
Proof. now exists r. Qed.

Lemma NoDup_map_prefix {A B : Type} (f : A -> B) (l1 l2 : list A) :
  prefix l1 l2 -> NoDup (map f l2) -> NoDup (map f l1).
Proof.
  intros [tl ->]. rewrite map_app. apply NoDup_app_remove_r.
Qed.

Lemma NoDup_map_filter {A B : Type} (f : A -> B) (g : A -> bool) (l : list A) :
  NoDup (map f l) -> NoDup (map f (filter g l)).
Proof.
  induction l as [|x l IH]; simpl; auto.
  intros H. inversion H as [|y l' Hn Hl]; subst.
  destruct (g x); auto. simpl. constructor; auto.
  intros Hin. apply Hn. apply in_map_iff in Hin.
  destruct Hin as (z & Hz & Hf). apply filter_In in Hf.
  apply in_map_iff. exists z. tauto.
Qed.

Lemma NoDup_map_two_prefixes {A B : Type} (f : A -> B) (a a' b b' : list A) :
  prefix a a' -> prefix b b' ->
  NoDup (map f (a' ++ b')) -> NoDup (map f (a ++ b)).
Proof.
  intros [ta ->] [tb ->] H.
  apply (NoDup_map_prefix f (a ++ b) ((a ++ b) ++ (ta ++ tb))).
  - apply prefix_app.
  - eapply Permutation_NoDup; [|exact H]. apply Permutation_map.
    rewrite <- !app_assoc. apply Permutation_app_head.
    rewrite !app_assoc. apply Permutation_app_tail, Permutation_app_comm.
Qed.

Lemma history_iter_prefix p n : prefix (ChannelPurger.history_iter p n) (history p).
Proof.
  exists (skipn (Z.to_nat n) (history p)). unfold ChannelPurger.history_iter.
  now rewrite firstn_skipn.
Qed.

Lemma prefix_trans {A : Type} (l1 l2 l3 : list A) :
  prefix l1 l2 -> prefix l2 l3 -> prefix l1 l3.
Proof.
  intros [t1 ->] [t2 ->]. exists (t1 ++ t2). now rewrite app_assoc.
Qed.

Lemma settled_history_items ex : flat_map settled (map HistoryItem ex) = [].
Proof. induction ex; simpl; auto. Qed.

(** C6. The list [purge] returns is the purger's [deleted] list: what was
    there before, followed by the messages of the deletions that completed,
    in the order in which they completed.  Whatever happens later in the
    run, the messages settled by any initial part of it stay at the front of
    the returned list.  [_delete_single], [delete_each] and [_bulk_delete]
    only ever add at the end.  When the history holds no message twice, no
    message is appended twice, so a new purger returns a duplicate-free
    list. *)
Theorem deletion_outcome_append_only_no_duplicates (p : Platform)
  (limit : Z) (check : Message -> bool) (st : State) :
  NoDup (map id (history p)) ->
  let run := ChannelPurger.purge p limit check st in
  (exists evs,
     trace (snd run) = trace st ++ evs /\
     fst run = deleted (snd run) /\
     deleted (snd run) = deleted st ++ flat_map settled evs /\
     (forall e1 e2, evs = e1 ++ e2 ->
        prefix (deleted st ++ flat_map settled e1) (fst run)) /\
     NoDup (map id (flat_map settled evs)) /\
     (deleted st = [] -> NoDup (map id (fst run)))) /\
  (forall msg s,
     prefix (deleted s) (deleted (snd (ChannelPurger._delete_single p msg s)))) /\
  (forall msgs s,
     prefix (deleted s) (deleted (snd (ChannelPurger.delete_each p msgs s)))) /\
  (forall msgs s,
     prefix (deleted s) (deleted (snd (ChannelPurger._bulk_delete p msgs s)))).
Proof.
  intros Hnd run. split; [|split; [|split]].
  - destruct run as [out st'] eqn:E. unfold run in E. apply purge_shape in E.
    cbv zeta in E.
    destruct E as (ex & be & bd & bok & oe & od & ook
                   & Hex & Hb & Ho & Ht & Hd & Hout).
    eexists. split; [exact Ht|]. simpl fst. simpl snd.
    assert (Hs : flat_map settled
                   (Utcnow (clock p (trace st))
                    :: HistoryOpen (ChannelPurger.scan_limit limit)
                    :: map HistoryItem ex ++ be ++ oe) = bd ++ od).
    { simpl. rewrite !flat_map_app, settled_history_items.
      rewrite (chunks_run_settled _ _ _ _ Hb), (each_run_settled _ _ _ _ Ho).
      reflexivity. }
    assert (Hn : NoDup (map id (bd ++ od))).
    { destruct (chunks_run_prefix _ _ _ _ Hb) as [Hbp _].
      rewrite chunks_concat in Hbp.
      pose proof (each_run_prefix _ _ _ _ Ho) as Hop.
      eapply NoDup_map_two_prefixes; [exact Hbp|exact Hop|].
      eapply Permutation_NoDup.
      - apply Permutation_map, Permutation_sym, partition_permutation.
      - apply NoDup_map_filter.
        eapply NoDup_map_prefix; [|exact Hnd].
        eapply prefix_trans; [exact Hex|apply history_iter_prefix]. }
    rewrite Hs. split; [exact Hout|]. split; [exact Hd|].
    split; [|split].
    + intros e1 e2 He. rewrite Hout, Hd, <- Hs, He, flat_map_app, app_assoc.
      apply prefix_app.
    + exact Hn.
    + intros Hempty. now rewrite Hout, Hd, Hempty.
  - intros msg s. rewrite _delete_single_run. cbv zeta. simpl.
    destruct (soft _); [apply prefix_app|]. exists []. now rewrite app_nil_r.
  - intros msgs s.
    destruct (ChannelPurger.delete_each p msgs s) as [ok s'] eqn:E.
    apply delete_each_shape in E. destruct E as (evs & dels & _ & _ & Hd).
    simpl. rewrite Hd. apply prefix_app.
  - intros msgs s. rewrite _bulk_delete_run. simpl.
    destruct (ChannelPurger.bulk_chunks _ _ _ _) as [ok s'] eqn:E.
    apply bulk_chunks_shape in E. destruct E as (evs & dels & _ & _ & Hd).
    simpl. rewrite Hd. apply prefix_app.
Qed.

(** An instance: 150 recent messages on a platform where every call
    succeeds are deleted in two chunks and returned in scan order. *)
Lemma deletion_outcome_instance :
  NoDup (map id (history (Scenario.calm (Scenario.msgs 150 5)))) /\
  NoDup (map id (fst (ChannelPurger.purge
                        (Scenario.calm (Scenario.msgs 150 5)) 150
                        Scenario.everything Scenario.fresh))).
Proof.
  assert (Hnd : NoDup (map id (history (Scenario.calm (Scenario.msgs 150 5))))).
  { change (history (Scenario.calm (Scenario.msgs 150 5)))
      with (Scenario.msgs 150 5).
    unfold Scenario.msgs. rewrite map_map.
    apply Finite.Injective_map_NoDup; [|apply seq_NoDup].
    intros x y H. cbn [id Scenario.msg] in H. now apply Nat2Z.inj in H. }
  split; [exact Hnd|].
  destruct (deletion_outcome_append_only_no_duplicates
              (Scenario.calm (Scenario.msgs 150 5)) 150
              Scenario.everything Scenario.fresh Hnd)
    as [(evs & _ & _ & _ & _ & _ & Hfresh) _].
  apply Hfresh. reflexivity.
Defined.

(** ** Scan bounds *)

Lemma flat_map_nil_Forall {A B : Type} (f : A -> list B) (l : list A) :
  Forall (fun x => f x = []) l -> flat_map f l = [].
Proof.
  induction 1 as [|x l Hx _ IH]; simpl; auto. now rewrite Hx, IH.
Qed.

Lemma examined_history_items ex : flat_map examined_of (map HistoryItem ex) = ex.
Proof. induction ex; simpl; congruence. Qed.

Lemma prefix_length {A : Type} (l1 l2 : list A) :
  prefix l1 l2 -> length l1 <= length l2.
Proof. intros [tl ->]. rewrite length_app. lia. Qed.

Lemma delete_phase_examines_nothing p now messages st :
  exists rest,
    trace (snd (delete_phase p now messages st)) = trace st ++ rest /\
    flat_map examined_of rest = [].
Proof.
  destruct (delete_phase p now messages st) as [out st'] eqn:E.
  apply delete_phase_shape in E.
  destruct E as (be & bd & bok & oe & od & ook & Hb & Ho & Ht & _).
  exists (be ++ oe). split; [exact Ht|].
  rewrite flat_map_app.
  rewrite (flat_map_nil_Forall examined_of be), (flat_map_nil_Forall examined_of oe);
    auto.
  - eapply Forall_impl; [|exact (each_run_events _ _ _ _ Ho)].
    intros e He. now apply each_event_kind in He.
  - eapply Forall_impl; [|exact (chunks_run_events _ _ _ _ Hb)].
    intros e He. now apply bulk_event_kind in He.
Qed.

(** C8. For a limit that is not negative, [purge] opens the history with
    the ceiling [min(limit * 5, 5000)] and examines an initial part of the
    history of at most that many messages; the matched messages are the
    examined ones that satisfy the check, at most [limit] of them.  No
    message is examined once [limit] messages have matched: the scan ends
    either with the message that is the [limit]-th match, or when the
    messages within the ceiling are used up. *)
Theorem scan_examines_at_most_ceiling (p : Platform) (limit : Z)
  (check : Message -> bool) (st : State) :
  (0 <= limit)%Z ->
  let ceiling := Z.min (limit * 5) 5000 in
  let now := clock p (trace st) in
  let matched := fst (ChannelPurger.collect p limit check
                        (mkState (deleted st) (trace st ++ [Utcnow now]))) in
  exists examined rest,
    trace (snd (ChannelPurger.purge p limit check st)) =
      trace st ++ Utcnow now :: HistoryOpen ceiling ::
      map HistoryItem examined ++ rest /\
    flat_map examined_of rest = [] /\
    prefix examined (history p) /\
    (Z.of_nat (length examined) <= ceiling)%Z /\
    matched = filter check examined /\
    (Z.of_nat (length matched) <= limit)%Z /\
    (forall pre post, examined = pre ++ post -> post <> [] ->
       (Z.of_nat (length (filter check pre)) < limit)%Z) /\
    (examined = firstn (Z.to_nat ceiling) (history p) \/
     exists pre m, examined = pre ++ [m] /\ check m = true /\
       Z.of_nat (length matched) = limit).
Proof.
  intros Hlimit ceiling now matched.
  rewrite purge_run. cbv zeta. fold now. unfold matched.
  destruct (ChannelPurger.collect p limit check _) as [messages st1] eqn:E.
  apply collect_shape in E.
  destruct E as (ex & Hpre & Ht & Hd & Hm & Hcont & Hstop).
  simpl in Ht. simpl fst. fold ceiling in Ht.
  change (ChannelPurger.scan_limit limit) with ceiling in Hpre, Hstop.
  assert (Hlen : (Z.of_nat (length ex) <= ceiling)%Z).
  { apply prefix_length in Hpre. unfold ChannelPurger.history_iter in Hpre.
    rewrite length_firstn in Hpre. unfold ceiling in *. lia. }
  assert (Hzero : limit = 0%Z -> ex = []).
  { intros ->. destruct ex; auto. simpl in Hlen. unfold ceiling in Hlen. lia. }
  assert (Hcont' : forall pre post, ex = pre ++ post -> post <> [] ->
            (Z.of_nat (length (filter check pre)) < limit)%Z).
  { intros pre post He Hne. destruct (Hcont pre post He Hne) as [Hn|Hn]; auto.
    rewrite Hn. simpl. destruct (Z.eq_dec limit 0) as [Hz|Hz]; [|lia].
    apply Hzero in Hz. subst ex. destruct pre, post; try discriminate.
    now elim Hne. }
  assert (Hmax : (Z.of_nat (length messages) <= limit)%Z).
  { destruct Hstop as [[_ [->|Hs]]|(pre & m & He & Hc & Hs)]; simpl; try lia.
    assert (Hp := Hcont' pre [m] He ltac:(discriminate)).
    rewrite Hm, He, filter_app, length_app. simpl. rewrite Hc. simpl. lia. }
  assert (Htrace : exists rest,
            trace (snd match messages with
                       | [] => (deleted st1, st1)
                       | _ :: _ => delete_phase p now messages st1
                       end) = trace st1 ++ rest /\
            flat_map examined_of rest = []).
  { destruct messages as [|m ms].
    - exists []. simpl. now rewrite app_nil_r.
    - apply delete_phase_examines_nothing. }
  destruct Htrace as (rest & Hrest & Hnone).
  exists ex, rest. split.
  { rewrite Hrest, Ht, <- !app_assoc. reflexivity. }
  split; [exact Hnone|].
  split; [eapply prefix_trans; [exact Hpre|apply history_iter_prefix]|].
  split; [exact Hlen|]. split; [exact Hm|]. split; [exact Hmax|].
  split; [exact Hcont'|].
  destruct Hstop as [[He _]|(pre & m & He & Hc & Hs)].
  - left. exact He.
  - right. exists pre, m. repeat split; auto. lia.
Qed.

(** An instance: with limit 2 on five matching messages, at most two
    messages are collected. *)
Lemma scan_examines_at_most_ceiling_instance :
  (0 <= 2)%Z /\
  (Z.of_nat (length (fst (ChannelPurger.collect
                            (Scenario.calm (Scenario.msgs 5 1)) 2
                            Scenario.everything
                            (mkState [] [Utcnow Scenario.noon])))) <= 2)%Z.
Proof.
  assert (H : (0 <= 2)%Z) by lia.
  split; [exact H|].
  destruct (scan_examines_at_most_ceiling
              (Scenario.calm (Scenario.msgs 5 1)) 2
              Scenario.everything Scenario.fresh H)
    as (examined & rest & _ & _ & _ & _ & _ & Hmax & _).
  exact Hmax.
Defined.

Example scan_stops_at_second_match :
  flat_map examined_of
    (trace (snd (ChannelPurger.purge (Scenario.calm (Scenario.msgs 5 1)) 2
                   Scenario.everything Scenario.fresh)))
  = Scenario.msgs 2 1.
Proof. vm_compute. reflexivity. Qed.

(** ** Validation *)

(** C7. For a limit below 1 or above 2000, [_validate_and_purge] does a
    single thing: it replies that the limit must be between 1 and 2000.
    The trace gains no history read, no delete call of any kind and no
    confirmation prompt, and the deleted list is untouched. *)
Theorem out_of_range_limit_rejected_first (p : Platform)
  (plural_message : nat -> string) (ctx : Purge.Context) (limit : Z)
  (check : Message -> bool) (confirm_threshold : Z) (st : State) :
  (limit < 1 \/ limit > 2000)%Z ->
  let run := Purge._validate_and_purge p plural_message ctx limit check
               confirm_threshold st in
  run = (tt, mkState (deleted st) (trace st ++ [Reply Purge.limit_text])) /\
  exists evs,
    trace (snd run) = trace st ++ evs /\
    Forall (fun e => is_history_or_delete e = false /\ is_prompt e = false) evs /\
    deleted (snd run) = deleted st.
Proof.
  intros Hlimit run.
  assert (Hrun : run =
            (tt, mkState (deleted st) (trace st ++ [Reply Purge.limit_text]))).
  { unfold run, Purge._validate_and_purge.
    destruct (Z.ltb_spec limit 1) as [H1|H1]; [reflexivity|].
    destruct (Z.gtb_spec limit 2000) as [H2|H2]; [reflexivity|]. lia. }
  split; [exact Hrun|]. rewrite Hrun. exists [Reply Purge.limit_text].
  repeat split. constructor; [split; reflexivity|constructor].
Qed.

(** An instance: limit 3000. *)
Lemma out_of_range_limit_rejected_instance :
  (3000 < 1 \/ 3000 > 2000)%Z /\
  trace (snd (Purge._validate_and_purge
                (Scenario.calm (Scenario.msgs 5 1)) Purge.str
                (Purge.mkContext false false) 3000 Scenario.everything 100
                Scenario.fresh))
  = [Reply Purge.limit_text].
Proof.
  assert (H : (3000 < 1 \/ 3000 > 2000)%Z) by (right; lia).
  split; [exact H|].
  rewrite (proj1 (out_of_range_limit_rejected_first
                    (Scenario.calm (Scenario.msgs 5 1)) Purge.str
                    (Purge.mkContext false false) 3000 Scenario.everything 100
                    Scenario.fresh H)).
  reflexivity.
Defined.

(** For contrast, a limit within the range does read the history, and one
    above the confirmation threshold prompts first. *)
Example in_range_limit_scans :
  existsb is_history_or_delete
    (trace (snd (Purge._validate_and_purge
                   (Scenario.calm (Scenario.msgs 5 1)) Purge.str
                   (Purge.mkContext true false) 3 Scenario.everything 100
                   Scenario.fresh))) = true /\
  hd_error
    (trace (snd (Purge._validate_and_purge
                   (Scenario.calm (Scenario.msgs 5 1)) Purge.str
                   (Purge.mkContext true false) 150 Scenario.everything 100
                   Scenario.fresh)))
  = Some (Prompt (Purge.prompt_text 150) (Some true)).
Proof. split; vm_compute; reflexivity. Qed.


(** ** The Result Reporter *)

Lemma count_authors_names deleted :
  Purge.count_authors deleted = fold_left count_name (names_of deleted) [].
Proof.
  unfold Purge.count_authors, names_of. generalize (@nil (string * nat)).
  induction deleted as [|m l IH]; intros d; simpl; auto.
Qed.

Lemma dict_get_set d k v k' def :
  Purge.dict_get (Purge.dict_set d k v) k' def =
  if String.eqb k k' then v else Purge.dict_get d k' def.
Proof.
  induction d as [|[k0 x] r IH]; simpl; auto.
  destruct (String.eqb_spec k0 k) as [->|Hk]; simpl.
  - destruct (String.eqb k k'); reflexivity.
  - rewrite IH. destruct (String.eqb_spec k0 k') as [->|Hk'].
    + destruct (String.eqb_spec k k'); congruence.
    + reflexivity.
Qed.

Lemma keys_dict_set d k v :
  map fst (Purge.dict_set d k v) =
  if existsb (String.eqb k) (map fst d) then map fst d else map fst d ++ [k].
Proof.
  induction d as [|[k0 x] r IH]; simpl; auto.
  rewrite (String.eqb_sym k k0).
  destruct (String.eqb k0 k); simpl; auto.
  rewrite IH. destruct (existsb _ _); reflexivity.
Qed.

Lemma existsb_filter_other x y (l : list string) :
  String.eqb x y = false ->
  existsb (String.eqb x) (filter (fun z => negb (String.eqb z y)) l) =
  existsb (String.eqb x) l.
Proof.
  intros Hxy. induction l as [|z l IH]; simpl; auto.
  destruct (String.eqb_spec z y) as [->|Hz]; simpl.
  - now rewrite Hxy.
  - now rewrite IH.
Qed.

Lemma first_seen_snoc l x :
  first_seen (l ++ [x]) =
  if existsb (String.eqb x) (first_seen l) then first_seen l
  else first_seen l ++ [x].
Proof.
  induction l as [|y l IH]; simpl; auto.
  rewrite IH. destruct (String.eqb_spec x y) as [->|Hxy]; simpl.
  - destruct (existsb _ _); auto.
    rewrite filter_app. simpl. rewrite String.eqb_refl. simpl.
    now rewrite app_nil_r.
  - rewrite existsb_filter_other by now apply String.eqb_neq.
    destruct (existsb _ _); auto.
    rewrite filter_app. simpl.
    destruct (String.eqb_spec x y); [congruence|]. reflexivity.
Qed.


Lemma first_seen_NoDup l : NoDup (first_seen l).
Proof.
  induction l as [|y l IH]; simpl; constructor.
  - rewrite filter_In, String.eqb_refl. simpl. intros [_ H]. discriminate.
  - now apply NoDup_filter.
Qed.

Lemma count_names_spec l :
  map fst (fold_left count_name l []) = first_seen l /\
  forall k, Purge.dict_get (fold_left count_name l []) k 0 =
            count_occ string_dec l k.
Proof.
  induction l as [|x l [IHk IHg]] using rev_ind; [split; reflexivity|].
  rewrite fold_left_app. simpl. unfold count_name at 1 3. split.
  - rewrite keys_dict_set, IHk, first_seen_snoc. reflexivity.
  - intros k. rewrite dict_get_set, !IHg, count_occ_app. simpl.
    destruct (String.eqb_spec x k) as [Hk|Hk];
      destruct (string_dec x k); try congruence; subst; lia.
Qed.

Lemma dict_is_its_lookups (d : Purge.Dict) :
  NoDup (map fst d) ->
  d = map (fun k => (k, Purge.dict_get d k 0)) (map fst d).
Proof.
  induction d as [|[k v] r IH]; simpl; auto.
  intros H. inversion H as [|? ? Hn Hr]; subst.
  rewrite String.eqb_refl. f_equal.
  rewrite (IH Hr) at 1. apply map_ext_in. intros k' Hk'.
  destruct (String.eqb_spec k k') as [->|]; [contradiction|reflexivity].
Qed.

(** The dictionary built by [_send_result]: one entry per display name, in
    order of first appearance, with the number of messages under that name. *)
Lemma count_authors_spec deleted :
  Purge.count_authors deleted =
  map (fun k => (k, count_occ string_dec (names_of deleted) k))
      (first_seen (names_of deleted)).
Proof.
  rewrite count_authors_names.
  destruct (count_names_spec (names_of deleted)) as [Hk Hg].
  rewrite (dict_is_its_lookups (fold_left count_name (names_of deleted) [])).
  - rewrite Hk. apply map_ext. intros k. now rewrite Hg.
  - rewrite Hk. apply first_seen_NoDup.
Qed.

(** *** Sorting *)

Lemma insert_desc_perm x l : Permutation (Purge.insert_desc x l) (x :: l).
Proof.
  induction l as [|y l IH]; simpl; auto.
  destruct (snd x <? snd y); auto.
  rewrite IH. apply perm_swap.
Qed.

Lemma sorted_desc_perm l : Permutation (Purge.sorted_desc l) l.
Proof.
  induction l as [|x l IH]; simpl; auto.
  rewrite insert_desc_perm. now constructor.
Qed.

Lemma insert_desc_sorted x l :
  StronglySorted count_ge l -> StronglySorted count_ge (Purge.insert_desc x l).
Proof.
  induction 1 as [|y l Hl IH Hy]; simpl.
  - repeat constructor.
  - destruct (Nat.ltb_spec (snd x) (snd y)) as [Hlt|Hge].
    + constructor; auto.
      eapply Permutation_Forall; [symmetry; apply insert_desc_perm|].
      constructor; auto. unfold count_ge. lia.
    + constructor; [now constructor|].
      constructor; [exact Hge|].
      eapply Forall_impl; [|exact Hy]. unfold count_ge. intros; lia.
Qed.

Lemma sorted_desc_sorted l : StronglySorted count_ge (Purge.sorted_desc l).
Proof.
  induction l as [|x l IH]; simpl; [constructor|].
  now apply insert_desc_sorted.
Qed.

Lemma insert_desc_stable c x l :
  filter (fun e => snd e =? c) (Purge.insert_desc x l) =
  filter (fun e => snd e =? c) (x :: l).
Proof.
  induction l as [|y l IH]; simpl; auto.
  destruct (Nat.ltb_spec (snd x) (snd y)) as [Hlt|Hge]; simpl; auto.
  rewrite IH. simpl.
  destruct (Nat.eqb_spec (snd x) c); destruct (Nat.eqb_spec (snd y) c);
    auto; lia.
Qed.

Lemma sorted_desc_stable c l :
  filter (fun e => snd e =? c) (Purge.sorted_desc l) =
  filter (fun e => snd e =? c) l.
Proof.
  induction l as [|x l IH]; simpl; auto.
  rewrite insert_desc_stable. simpl. now rewrite IH.
Qed.

(** *** Rendering *)

Lemma has_suffix_app listing note : has_suffix note (listing ++ note) = true.
Proof.
  induction listing as [|c listing IH].
  - change (EmptyString ++ note)%string with note.
    destruct note; cbn [has_suffix]; now rewrite String.eqb_refl.
  - change (String c listing ++ note)%string
      with (String c (listing ++ note)%string).
    cbn [has_suffix]. now rewrite IH, orb_true_r.
Qed.

Lemma join_starts sep c s rest :
  exists s', Purge.join sep (String c s :: rest) = String c s'.
Proof.
  destruct rest; simpl; eauto.
Qed.

Lemma breakdown_starts sorted :
  sorted <> [] -> exists s, Purge.breakdown sorted = String "*" s.
Proof.
  destruct sorted as [|e rest]; [congruence|]. intros _.
  assert (Hj : forall lines, exists s',
            Purge.join Purge.newline (Purge.breakdown_line e :: lines)
            = String "*" s').
  { intros lines.
    apply (join_starts Purge.newline "*"
             ("*" ++ fst e ++ "**: " ++ Purge.str (snd e))%string lines). }
  unfold Purge.breakdown.
  change (firstn 10 (e :: rest)) with (e :: firstn 9 rest).
  rewrite map_cons.
  destruct (Hj (map Purge.breakdown_line (firstn 9 rest))) as [s' Hs].
  rewrite Hs. destruct (10 <? length (e :: rest)); simpl; eauto.
Qed.

Lemma _send_result_nothing plural_message st :
  Purge._send_result plural_message [] st =
  (tt, mkState (deleted st) (trace st ++ [Send (Text Purge.no_match_text)])).
Proof. reflexivity. Qed.

Lemma count_authors_nonempty deleted :
  deleted <> [] -> Purge.sorted_desc (Purge.count_authors deleted) <> [].
Proof.
  intros Hne Hs.
  pose proof (sorted_desc_perm (Purge.count_authors deleted)) as Hp.
  rewrite Hs in Hp. apply Permutation_nil in Hp.
  rewrite count_authors_spec in Hp.
  destruct deleted as [|m l]; [congruence|]. discriminate.
Qed.

Lemma _send_result_breakdown plural_message removed st :
  removed <> [] ->
  Purge._send_result plural_message removed st =
  (tt, mkState (deleted st)
         (trace st ++
          [Send (Embed
             ("Successfully removed **" ++ plural_message (length removed)
              ++ "**.")%string
             (Some (Purge.breakdown
                      (Purge.sorted_desc (Purge.count_authors removed)))))])).
Proof.
  intros Hne. unfold Purge._send_result.
  destruct removed as [|m l]; [congruence|].
  cbn [length Nat.eqb]. cbv zeta.
  destruct (breakdown_starts _ (count_authors_nonempty (m :: l) Hne)) as [s Hs].
  rewrite Hs. reflexivity.
Qed.

(** C9, as worded, fails: eleven distinct authors, two of whom go by the
    same display name, give ten entries and no note. *)
Lemma no_note_for_eleven_authors_sharing_a_name :
  ~ note_counts_omitted_authors Scenario.crowd.
Proof.
  intros H.
  assert (Hmany : 10 < length (distinct_authors Scenario.crowd))
    by (vm_compute; lia).
  apply H in Hmany. vm_compute in Hmany. discriminate.
Qed.

(** C9, amended.  The breakdown is built from one entry per display name,
    in order of first appearance, counting the deleted messages under that
    name.  The entries are sorted by count, largest first, and entries with
    equal counts keep their first-seen order; for counts A:7, B:3, C:3 with
    B seen before C the order is A, B, C.  At most ten entries are listed;
    with more than ten distinct display names the listing is followed by a
    note giving exactly the number of names left out, and with ten or fewer
    there is no note.  With no deleted message a separate text is sent and
    no breakdown at all; otherwise the breakdown is sent in an embed. *)
Theorem breakdown_sorted_top_ten_by_display_name :
  (forall deleted,
     let authors := Purge.count_authors deleted in
     let sorted := Purge.sorted_desc authors in
     let names := first_seen (names_of deleted) in
     authors = map (fun k => (k, count_occ string_dec (names_of deleted) k)) names /\
     Permutation sorted authors /\
     StronglySorted count_ge sorted /\
     (forall c, filter (fun e => snd e =? c) sorted =
                filter (fun e => snd e =? c) authors) /\
     length sorted = length names /\
     length (firstn 10 sorted) <= 10 /\
     (length names <= 10 ->
        Purge.breakdown sorted =
        Purge.join Purge.newline (map Purge.breakdown_line sorted)) /\
     (10 < length names ->
        Purge.breakdown sorted =
        (Purge.join Purge.newline (map Purge.breakdown_line (firstn 10 sorted))
         ++ Purge.remainder_note (length names - 10))%string /\
        has_suffix (Purge.remainder_note (length names - 10))
          (Purge.breakdown sorted) = true)) /\
  (Purge.count_authors Scenario.a7_b3_c3 = [("B", 3); ("A", 7); ("C", 3)]%string /\
   Purge.sorted_desc (Purge.count_authors Scenario.a7_b3_c3) =
     [("A", 7); ("B", 3); ("C", 3)]%string) /\
  (forall plural_message st,
     Purge._send_result plural_message [] st =
     (tt, mkState (deleted st) (trace st ++ [Send (Text Purge.no_match_text)]))) /\
  (forall plural_message removed st,
     removed <> [] ->
     Purge._send_result plural_message removed st =
     (tt, mkState (deleted st)
            (trace st ++
             [Send (Embed
                ("Successfully removed **" ++ plural_message (length removed)
                 ++ "**.")%string
                (Some (Purge.breakdown
                         (Purge.sorted_desc (Purge.count_authors removed)))))]))).
Proof.
  split; [|split; [|split]].
  - intros deleted authors sorted names.
    assert (Hlen : length sorted = length names).
    { unfold sorted. rewrite (Permutation_length (sorted_desc_perm authors)).
      unfold authors. rewrite count_authors_spec. now rewrite length_map. }
    split; [apply count_authors_spec|].
    split; [apply sorted_desc_perm|].
    split; [apply sorted_desc_sorted|].
    split; [intros c; apply sorted_desc_stable|].
    split; [exact Hlen|].
    split; [rewrite length_firstn; lia|].
    unfold Purge.breakdown. rewrite Hlen. split; intros Hn.
    + destruct (Nat.ltb_spec 10 (length names)); [lia|].
      now rewrite firstn_all2 by lia.
    + destruct (Nat.ltb_spec 10 (length names)); [|lia].
      split; [reflexivity|]. apply has_suffix_app.
  - split; vm_compute; reflexivity.
  - apply _send_result_nothing.
  - apply _send_result_breakdown.
Qed.

(** *** Display names shared by several authors *)










(** * Further properties of the engine *)

Lemma targets_first_attempt c r : targets (first_attempt c r) = c.
Proof. destruct c as [|m [|m' l]]; reflexivity. Qed.

Lemma bulk_targets_first_attempt c r : bulk_targets (first_attempt c r) = c.
Proof. destruct c as [|m [|m' l]]; reflexivity. Qed.

Lemma bulk_phase_targets cs evs :
  Forall (bulk_event cs) evs ->
  forall m, In m (flat_map targets evs) -> In m (concat cs).
Proof.
  intros Hev m Hin. apply in_flat_map in Hin. destruct Hin as (e & He & Hm).
  rewrite Forall_forall in Hev.
  destruct (Hev e He) as [(c & m' & r & Hc & Hm' & ->)|(c & r & Hc & ->)].
  - destruct Hm as [<-|[]]. apply in_concat. eauto.
  - rewrite targets_first_attempt in Hm. apply in_concat. eauto.
Qed.

Lemma bulk_phase_bulk_targets cs evs :
  Forall (bulk_event cs) evs ->
  forall m, In m (flat_map bulk_targets evs) -> In m (concat cs).
Proof.
  intros Hev m Hin. apply in_flat_map in Hin. destruct Hin as (e & He & Hm).
  rewrite Forall_forall in Hev.
  destruct (Hev e He) as [(c & m' & r & Hc & Hm' & ->)|(c & r & Hc & ->)].
  - destruct Hm.
  - rewrite bulk_targets_first_attempt in Hm. apply in_concat. eauto.
Qed.

Lemma each_phase_targets msgs evs dels ok :
  each_run msgs evs dels ok ->
  (forall m, In m (flat_map targets evs) -> In m msgs) /\
  flat_map bulk_targets evs = [].
Proof.
  intros Hrun. pose proof (each_run_events _ _ _ _ Hrun) as Hev. split.
  - intros m Hin. apply in_flat_map in Hin. destruct Hin as (e & He & Hm).
    rewrite Forall_forall in Hev. destruct (Hev e He) as (m' & r & Hm' & ->).
    now destruct Hm as [<-|[]].
  - apply flat_map_nil_Forall. eapply Forall_impl; [|exact Hev].
    intros e (m' & r & _ & ->). reflexivity.
Qed.

Lemma targets_history_items ex : flat_map targets (map HistoryItem ex) = [].
Proof. induction ex; simpl; auto. Qed.

Lemma bulk_targets_history_items ex :
  flat_map bulk_targets (map HistoryItem ex) = [].
Proof. induction ex; simpl; auto. Qed.

Lemma prefix_In {A : Type} (l1 l2 : list A) x : prefix l1 l2 -> In x l1 -> In x l2.
Proof. intros [tl ->] H. apply in_or_app. now left. Qed.

Lemma purge_targets_shape (p : Platform) (limit : Z)
  (check : Message -> bool) (st : State) :
  exists examined dels,
    prefix examined
      (ChannelPurger.history_iter p (ChannelPurger.scan_limit limit)) /\
    trace (snd (ChannelPurger.purge p limit check st)) =
      trace st ++ Utcnow (clock p (trace st))
        :: HistoryOpen (ChannelPurger.scan_limit limit)
        :: map HistoryItem examined ++ dels /\
    forall m, In m (flat_map targets dels) -> In m (filter check examined).
Proof.
  destruct (ChannelPurger.purge p limit check st) as [out st'] eqn:E.
  apply purge_shape in E. cbv zeta in E.
  destruct E as (ex & be & bd & bok & oe & od & ook & Hex & Hb & Ho & Ht & _).
  exists ex, (be ++ oe). split; [exact Hex|]. split; [exact Ht|].
  intros m Hin. rewrite flat_map_app in Hin.
  apply in_app_or in Hin. destruct Hin as [Hin|Hin].
  - apply (bulk_phase_targets _ _ (chunks_run_events _ _ _ _ Hb)) in Hin.
    rewrite chunks_concat in Hin.
    unfold ChannelPurger.bulk_msgs in Hin. now apply filter_In in Hin.
  - apply (proj1 (each_phase_targets _ _ _ _ Ho)) in Hin.
    unfold ChannelPurger.old_msgs in Hin. now apply filter_In in Hin.
Qed.


(** X1. Whatever the platform answers, every message [purge] asks the
    platform to delete, by a single delete or in a batch, is a message of
    the channel history that was examined by this run and that satisfies
    the check. *)
Theorem purge_only_targets_matched_messages (p : Platform) (limit : Z)
  (check : Message -> bool) (st : State) :
  exists evs,
    trace (snd (ChannelPurger.purge p limit check st)) = trace st ++ evs /\
    forall m, In m (flat_map targets evs) ->
      In m (history p) /\ check m = true /\ In (HistoryItem m) evs.
Proof.
  destruct (purge_targets_shape p limit check st) as (ex & dels & Hex & Ht & Hm).
  eexists. split; [exact Ht|]. intros m Hin.
  assert (Hmatched : In m (filter check ex)).
  { simpl in Hin. rewrite flat_map_app, targets_history_items in Hin.
    simpl in Hin. now apply Hm. }
  apply filter_In in Hmatched. destruct Hmatched as [Hin_ex Hc].
  split; [|split; [exact Hc|]].
  - eapply prefix_In; [apply history_iter_prefix|].
    eapply prefix_In; [exact Hex|exact Hin_ex].
  - right. right. apply in_or_app. left. now apply in_map.
Qed.

(** X2. No message that is 14 days old or older at the clock reading of the
    run is ever passed to the batch path of [_bulk_delete]: every message of
    a [delete_messages] call or of the chunk-of-one delete was created
    strictly after the cutoff. *)
Theorem purge_batches_only_recent_messages (p : Platform) (limit : Z)
  (check : Message -> bool) (st : State) :
  exists evs,
    trace (snd (ChannelPurger.purge p limit check st)) = trace st ++ evs /\
    forall m, In m (flat_map bulk_targets evs) ->
      (created_at m > clock p (trace st) - 1209600000000)%Z.
Proof.
  destruct (ChannelPurger.purge p limit check st) as [out st'] eqn:E.
  apply purge_shape in E. cbv zeta in E.
  destruct E as (ex & be & bd & bok & oe & od & ook & Hex & Hb & Ho & Ht & _).
  eexists. split; [exact Ht|]. intros m Hin.
  simpl in Hin. rewrite !flat_map_app, bulk_targets_history_items in Hin.
  rewrite (proj2 (each_phase_targets _ _ _ _ Ho)), app_nil_r in Hin.
  simpl in Hin.
  apply (bulk_phase_bulk_targets _ _ (chunks_run_events _ _ _ _ Hb)) in Hin.
  rewrite chunks_concat in Hin.
  unfold ChannelPurger.bulk_msgs in Hin. apply filter_In in Hin.
  destruct Hin as [_ Hc].
  unfold ChannelPurger.bulk_cutoff, ChannelPurger.BULK_DELETE_LIMIT in Hc. lia.
Qed.

Lemma collect_keeps_deleted p limit check st :
  deleted (snd (ChannelPurger.collect p limit check st)) = deleted st.
Proof.
  destruct (ChannelPurger.collect p limit check st) as [messages st'] eqn:E.
  apply collect_shape in E. now destruct E as (ex & _ & _ & Hd & _).
Qed.

Lemma collect_at_most_limit p limit check st :
  (0 <= limit)%Z ->
  (Z.of_nat (length (fst (ChannelPurger.collect p limit check st))) <= limit)%Z /\
  (forall m, In m (fst (ChannelPurger.collect p limit check st)) ->
     check m = true /\ In m (history p)).
Proof.
  intros Hlimit.
  destruct (ChannelPurger.collect p limit check st) as [messages st'] eqn:E.
  apply collect_shape in E.
  destruct E as (ex & Hpre & _ & _ & Hm & Hcont & Hstop). simpl. split.
  - destruct Hstop as [[_ [->|Hs]]|(pre & m & He & Hc & Hs)]; simpl; try lia.
    destruct (Z.eq_dec limit 0) as [Hz|Hz].
    + exfalso. apply prefix_length in Hpre.
      unfold ChannelPurger.history_iter, ChannelPurger.scan_limit in Hpre.
      rewrite length_firstn, He, length_app in Hpre. simpl in Hpre.
      rewrite Hz in Hpre. simpl in Hpre. lia.
    + rewrite Hm, He, filter_app, length_app. simpl. rewrite Hc. simpl.
      destruct (Hcont pre [m] He ltac:(discriminate)) as [Hn|Hn].
      * rewrite Hn. simpl. lia.
      * lia.
  - intros m Hin. rewrite Hm in Hin. apply filter_In in Hin.
    destruct Hin as [Hin Hc]. split; auto.
    eapply prefix_In; [apply history_iter_prefix|].
    eapply prefix_In; [exact Hpre|exact Hin].
Qed.

Lemma partition_lengths cutoff messages :
  length (ChannelPurger.bulk_msgs cutoff messages)
  + length (ChannelPurger.old_msgs cutoff messages) = length messages.
Proof.
  rewrite <- length_app. apply Permutation_length, partition_permutation.
Qed.

Lemma delete_phase_appends p now messages st :
  exists bulk_dels old_dels,
    prefix bulk_dels (ChannelPurger.bulk_msgs (ChannelPurger.bulk_cutoff now) messages) /\
    prefix old_dels (ChannelPurger.old_msgs (ChannelPurger.bulk_cutoff now) messages) /\
    fst (delete_phase p now messages st) = deleted st ++ bulk_dels ++ old_dels.
Proof.
  destruct (delete_phase p now messages st) as [out st'] eqn:E.
  apply delete_phase_shape in E.
  destruct E as (be & bd & bok & oe & od & ook & Hb & Ho & _ & Hd & Hout).
  exists bd, od. simpl. split; [|split].
  - destruct (chunks_run_prefix _ _ _ _ Hb) as [Hp _].
    now rewrite chunks_concat in Hp.
  - exact (each_run_prefix _ _ _ _ Ho).
  - now rewrite Hout, Hd.
Qed.

Lemma purge_outcome_shape (p : Platform) (limit : Z)
  (check : Message -> bool) (st : State) :
  let now := clock p (trace st) in
  let cutoff := ChannelPurger.bulk_cutoff now in
  let matched := fst (ChannelPurger.collect p limit check
                        (mkState (deleted st) (trace st ++ [Utcnow now]))) in
  exists bulk_dels old_dels,
    fst (ChannelPurger.purge p limit check st)
    = deleted st ++ bulk_dels ++ old_dels /\
    prefix bulk_dels (ChannelPurger.bulk_msgs cutoff matched) /\
    prefix old_dels (ChannelPurger.old_msgs cutoff matched).
Proof.
  intros now cutoff matched. unfold matched. rewrite purge_run. cbv zeta.
  fold now.
  pose proof (collect_keeps_deleted p limit check
                (mkState (deleted st) (trace st ++ [Utcnow now]))) as Hd.
  destruct (ChannelPurger.collect p limit check _) as [messages st1].
  cbn [fst snd] in *.
  destruct messages as [|m0 ms].
  - exists [], []. cbn. rewrite Hd, app_nil_r.
    repeat split; now exists [].
  - destruct (delete_phase_appends p now (m0 :: ms) st1)
      as (bd & od & Hbp & Hop & Hout).
    exists bd, od. rewrite Hout, Hd. auto.
Qed.

(** X3. For a limit that is not negative, [purge] adds at most [limit]
    messages to the deleted list it returns, and each of them is a message
    of the history that satisfies the check. *)
Theorem purge_deletes_at_most_limit (p : Platform) (limit : Z)
  (check : Message -> bool) (st : State) :
  (0 <= limit)%Z ->
  exists news,
    fst (ChannelPurger.purge p limit check st) = deleted st ++ news /\
    (Z.of_nat (length news) <= limit)%Z /\
    forall m, In m news -> check m = true /\ In m (history p).
Proof.
  intros Hlimit.
  destruct (purge_outcome_shape p limit check st) as (bd & od & Hout & Hbp & Hop).
  set (st0 := mkState (deleted st) (trace st ++ [Utcnow (clock p (trace st))]))
    in *.
  destruct (collect_at_most_limit p limit check st0 Hlimit) as [Hlen Hin].
  exists (bd ++ od). split; [exact Hout|].
  pose proof (partition_lengths
                (ChannelPurger.bulk_cutoff (clock p (trace st)))
                (fst (ChannelPurger.collect p limit check st0))) as Hpl.
  apply prefix_length in Hbp as Hbl. apply prefix_length in Hop as Hol.
  split; [rewrite length_app; lia|].
  intros m Hm. apply Hin. apply in_app_or in Hm. destruct Hm as [Hm|Hm].
  - apply (prefix_In _ _ _ Hbp) in Hm.
    unfold ChannelPurger.bulk_msgs in Hm. now apply filter_In in Hm.
  - apply (prefix_In _ _ _ Hop) in Hm.
    unfold ChannelPurger.old_msgs in Hm. now apply filter_In in Hm.
Qed.

(** An instance: limit 3 on five deletable messages. *)
Lemma purge_deletes_at_most_limit_instance :
  (0 <= 3)%Z /\
  exists news,
    fst (ChannelPurger.purge (Scenario.calm (Scenario.msgs 5 1)) 3
           Scenario.everything Scenario.fresh) = [] ++ news /\
    (Z.of_nat (length news) <= 3)%Z.
Proof.
  assert (H : (0 <= 3)%Z) by lia.
  split; [exact H|].
  destruct (purge_deletes_at_most_limit
              (Scenario.calm (Scenario.msgs 5 1)) 3
              Scenario.everything Scenario.fresh H) as (news & Hn & Hl & _).
  exists news. split; [exact Hn|exact Hl].
Defined.

Lemma delete_each_never_stops p msgs :
  (forall tr m, delete p tr m <> HTTPException) ->
  forall st, fst (ChannelPurger.delete_each p msgs st) = true.
Proof.
  intros Hsoft. induction msgs as [|m rest IH]; intros st; [reflexivity|].
  rewrite delete_each_cons. cbv zeta.
  specialize (Hsoft (trace st) m).
  destruct (delete p (trace st) m); simpl; auto; congruence.
Qed.

Lemma bulk_chunks_never_stops p messages starts :
  (forall tr m, delete p tr m <> HTTPException) ->
  forall st, fst (ChannelPurger.bulk_chunks p messages starts st) = true.
Proof.
  intros Hsoft. induction starts as [|i rest IH]; intros st; [reflexivity|].
  rewrite bulk_chunks_cons. cbv zeta.
  destruct (ChannelPurger.delete_chunk _ _ _) as [r st1].
  pose proof (delete_each_never_stops p
                (ChannelPurger.slice messages i (i + 100)) Hsoft st1) as He.
  destruct (ChannelPurger.delete_each _ _ st1) as [ok st2]. simpl in He.
  subst ok. destruct r; apply IH.
Qed.

(** X4. When no single-message delete ever fails hard, every matched
    message ends up in the returned list, whatever the batch calls answer:
    [purge] returns the previous list, then the recent matched messages in
    scan order, then the old ones in scan order. *)
Theorem purge_complete_without_hard_failure (p : Platform) (limit : Z)
  (check : Message -> bool) (st : State) :
  (forall tr m, delete p tr m <> HTTPException) ->
  let now := clock p (trace st) in
  let cutoff := ChannelPurger.bulk_cutoff now in
  let matched := fst (ChannelPurger.collect p limit check
                        (mkState (deleted st) (trace st ++ [Utcnow now]))) in
  fst (ChannelPurger.purge p limit check st) =
  deleted st ++ ChannelPurger.bulk_msgs cutoff matched
             ++ ChannelPurger.old_msgs cutoff matched.
Proof.
  intros Hsoft now cutoff matched. rewrite purge_run. cbv zeta. fold now.
  unfold matched. clear matched.
  pose proof (collect_keeps_deleted p limit check
                (mkState (deleted st) (trace st ++ [Utcnow now]))) as Hd.
  destruct (ChannelPurger.collect p limit check _) as [messages st1].
  cbn [fst snd] in *.
  destruct messages as [|m0 ms]; [cbn; now rewrite Hd, app_nil_r|].
  rewrite delete_phase_run. cbv zeta. fold cutoff. cbn [fst snd].
  generalize (m0 :: ms) as messages. intros messages.
  set (recent := ChannelPurger.bulk_msgs cutoff messages).
  set (olds := ChannelPurger.old_msgs cutoff messages).
  pose proof (bulk_chunks_never_stops p recent
                (ChannelPurger.chunk_starts recent) Hsoft st1) as Hb.
  destruct (ChannelPurger.bulk_chunks p recent _ st1) as [bok st2] eqn:Eb.
  cbn [fst snd] in *. subst bok.
  pose proof (delete_each_never_stops p olds Hsoft st2) as Ho.
  destruct (ChannelPurger.delete_each p olds st2) as [ook st3] eqn:Eo.
  cbn [fst snd] in *. subst ook.
  apply bulk_chunks_shape in Eb. fold (chunks recent) in Eb.
  destruct Eb as (be & bd & Hbr & _ & Hbd).
  apply delete_each_shape in Eo. destruct Eo as (oe & od & Hor & _ & Hod).
  destruct (chunks_run_prefix _ _ _ _ Hbr) as [_ Hall].
  rewrite chunks_concat in Hall. apply each_run_true in Hor.
  destruct Hor as [-> _].
  rewrite Hod, Hbd, (Hall eq_refl), Hd, app_assoc. reflexivity.
Qed.

(** An instance: every message is already gone, so each call answers
    not-found; the two recent and the one old message are all returned. *)
Lemma purge_complete_without_hard_failure_instance :
  let p := Scenario.all_gone
             [Scenario.msg 1 5; Scenario.msg 2 20; Scenario.msg 3 5] in
  (forall tr m, delete p tr m <> HTTPException) /\
  fst (ChannelPurger.purge p 10 Scenario.everything Scenario.fresh)
  = [Scenario.msg 1 5; Scenario.msg 3 5; Scenario.msg 2 20].
Proof.
  intros p.
  assert (H : forall tr m, delete p tr m <> HTTPException)
    by (intros tr m; discriminate).
  split; [exact H|].
  rewrite (purge_complete_without_hard_failure
             p 10 Scenario.everything Scenario.fresh H).
  vm_compute. reflexivity.
Defined.

Lemma scan_without_match check limit items : forall acc st,
  (forall m, In m items -> check m = false) ->
  ChannelPurger.scan check limit items acc st =
  (acc, mkState (deleted st) (trace st ++ map HistoryItem items)).
Proof.
  induction items as [|x rest IH]; intros acc st Hnone; simpl.
  - unfold ret. rewrite app_nil_r. now destruct st.
  - unfold bind, emit. rewrite (Hnone x (or_introl eq_refl)).
    rewrite IH by (intros m Hm; apply Hnone; now right).
    simpl. now rewrite <- app_assoc.
Qed.

(** X5. When no message within the scan ceiling satisfies the check,
    [purge] reads the clock, walks through all of those messages and
    returns the deleted list as it was: it makes no delete call of any
    kind. *)
Theorem purge_without_match_deletes_nothing (p : Platform) (limit : Z)
  (check : Message -> bool) (st : State) :
  (forall m, In m (ChannelPurger.history_iter p (ChannelPurger.scan_limit limit)) ->
             check m = false) ->
  ChannelPurger.purge p limit check st =
  (deleted st,
   mkState (deleted st)
     (trace st ++
      Utcnow (clock p (trace st)) ::
      HistoryOpen (Z.min (limit * 5) 5000) ::
      map HistoryItem
        (firstn (Z.to_nat (Z.min (limit * 5) 5000)) (history p)))).
Proof.
  intros Hnone. rewrite purge_run. cbv zeta.
  unfold ChannelPurger.collect, bind, emit. cbn [deleted trace].
  rewrite scan_without_match by exact Hnone. cbn [deleted trace].
  rewrite <- !app_assoc. reflexivity.
Qed.

(** An instance: a check that rejects every message. *)
Lemma purge_without_match_instance :
  let p := Scenario.calm (Scenario.msgs 3 1) in
  (forall m, In m (ChannelPurger.history_iter p (ChannelPurger.scan_limit 10)) ->
             (fun _ : Message => false) m = false) /\
  flat_map targets
    (trace (snd (ChannelPurger.purge p 10 (fun _ => false) Scenario.fresh)))
  = [].
Proof.
  intros p.
  assert (H : forall m,
            In m (ChannelPurger.history_iter p (ChannelPurger.scan_limit 10)) ->
            (fun _ : Message => false) m = false) by reflexivity.
  split; [exact H|].
  rewrite (purge_without_match_deletes_nothing
             p 10 (fun _ => false) Scenario.fresh H).
  vm_compute. reflexivity.
Defined.

(** X6. A chunk of one message whose first delete does not succeed, be it
    with not-found, is deleted a second time by the fallback: [_bulk_delete]
    on a single message then makes two delete calls on that message, and
    appends it when the second call succeeds or answers not-found. *)
Theorem lone_message_deleted_twice_after_failure (p : Platform)
  (m : Message) (st : State) :
  let r1 := delete p (trace st) m in
  r1 <> Done ->
  let tr1 := trace st ++ [ChunkDelete m r1] in
  let r2 := delete p tr1 m in
  ChannelPurger._bulk_delete p [m] st =
  (tt, mkState (if soft r2 then deleted st ++ [m] else deleted st)
               (tr1 ++ [Delete m r2])).
Proof.
  intros r1 Hr1 tr1 r2. rewrite _bulk_delete_run.
  change (ChannelPurger.chunk_starts [m]) with [0].
  rewrite bulk_chunks_cons. cbv zeta.
  change (ChannelPurger.slice [m] 0 (0 + 100)) with [m].
  rewrite delete_chunk_run. cbv beta iota zeta.
  change (first_attempt [m] (delete p (trace st) m)) with (ChunkDelete m r1).
  fold r1. fold tr1. cbn [deleted trace].
  rewrite delete_each_cons. cbv zeta. cbn [trace deleted]. fold r2.
  change (ChannelPurger.delete_each p []) with (@ret bool true).
  unfold ret.
  destruct r1; [now elim Hr1| |]; destruct (soft r2); reflexivity.
Qed.

(** An instance: the message is already gone, so both calls answer
    not-found, and it is appended once. *)
Lemma lone_message_deleted_twice_instance :
  delete (Scenario.all_gone []) (trace Scenario.fresh) (Scenario.msg 1 5) <> Done /\
  ChannelPurger._bulk_delete (Scenario.all_gone []) [Scenario.msg 1 5]
    Scenario.fresh
  = (tt, mkState [Scenario.msg 1 5]
           [ChunkDelete (Scenario.msg 1 5) NotFound;
            Delete (Scenario.msg 1 5) NotFound]).
Proof.
  assert (H : delete (Scenario.all_gone []) (trace Scenario.fresh)
                (Scenario.msg 1 5) <> Done) by discriminate.
  split; [exact H|].
  rewrite (lone_message_deleted_twice_after_failure
             (Scenario.all_gone []) (Scenario.msg 1 5) Scenario.fresh H).
  reflexivity.
Defined.

Lemma bulk_chunks_all_done p messages starts :
  (forall tr c, delete_messages p tr c = Done) ->
  (forall tr m, delete p tr m = Done) ->
  forall st,
    ChannelPurger.bulk_chunks p messages starts st =
    (true,
     mkState
       (deleted st ++
        concat (map (fun i => ChannelPurger.slice messages i (i + 100)) starts))
       (trace st ++
        map (fun c => first_attempt c Done)
          (map (fun i => ChannelPurger.slice messages i (i + 100)) starts))).
Proof.
  intros Hbatch Hone. induction starts as [|i rest IH]; intros st.
  - simpl. unfold ret. rewrite !app_nil_r. now destruct st.
  - rewrite bulk_chunks_cons. cbv zeta. rewrite delete_chunk_run. cbv zeta.
    assert (Hr : match ChannelPurger.slice messages i (i + 100) with
                 | [m] => delete p (trace st) m
                 | _ => delete_messages p (trace st)
                          (ChannelPurger.slice messages i (i + 100))
                 end = Done).
    { destruct (ChannelPurger.slice messages i (i + 100)) as [|m [|m' l]];
        auto. }
    rewrite Hr. cbv beta iota. rewrite IH. cbn [deleted trace map concat].
    rewrite <- !app_assoc. reflexivity.
Qed.

Lemma chunks_count messages :
  length (chunks messages) = (length messages + 99) / 100.
Proof.
  unfold chunks, ChannelPurger.chunk_starts, ChannelPurger.range0.
  rewrite !length_map, length_seq. f_equal. lia.
Qed.

(** X7. On a platform where every delete call succeeds, [_bulk_delete]
    makes exactly one call per chunk, that is [ceil(n / 100)] calls for [n]
    messages, none of them a fallback delete, and appends all the messages
    in their order. *)
Theorem bulk_delete_one_call_per_chunk (p : Platform)
  (messages : list Message) (st : State) :
  (forall tr c, delete_messages p tr c = Done) ->
  (forall tr m, delete p tr m = Done) ->
  ChannelPurger._bulk_delete p messages st =
  (tt, mkState (deleted st ++ messages)
         (trace st ++ map (fun c => first_attempt c Done) (chunks messages))) /\
  length (map (fun c => first_attempt c Done) (chunks messages))
  = (length messages + 99) / 100.
Proof.
  intros Hbatch Hone. split.
  - rewrite _bulk_delete_run, (bulk_chunks_all_done _ _ _ Hbatch Hone).
    cbn [snd]. fold (chunks messages). now rewrite chunks_concat.
  - rewrite length_map. apply chunks_count.
Qed.

(** An instance: 250 messages take three calls. *)
Lemma bulk_delete_one_call_per_chunk_instance :
  let p := Scenario.calm [] in
  ((forall tr c, delete_messages p tr c = Done) /\
   (forall tr m, delete p tr m = Done)) /\
  length (trace (snd (ChannelPurger._bulk_delete p (Scenario.msgs 250 1)
                        Scenario.fresh))) = 3.
Proof.
  intros p.
  assert (Hb : forall tr c, delete_messages p tr c = Done) by reflexivity.
  assert (Ho : forall tr m, delete p tr m = Done) by reflexivity.
  split; [split; assumption|].
  destruct (bulk_delete_one_call_per_chunk
              p (Scenario.msgs 250 1) Scenario.fresh Hb Ho) as [Hrun Hlen].
  rewrite Hrun. cbn [snd trace Scenario.fresh app]. rewrite Hlen.
  vm_compute. reflexivity.
Defined.

Lemma scan_everything limit items : forall acc st,
  (Z.of_nat (length acc) < limit)%Z ->
  let k := Z.to_nat limit - length acc in
  ChannelPurger.scan (fun _ => true) limit items acc st =
  (acc ++ firstn k items,
   mkState (deleted st) (trace st ++ map HistoryItem (firstn k items))).
Proof.
  induction items as [|x rest IH]; intros acc st Hacc k.
  - simpl. unfold ret. rewrite firstn_nil, !app_nil_r. now destruct st.
  - simpl. unfold bind, emit. rewrite length_app.
    change (length [x]) with 1.
    destruct (Z.geb_spec (Z.of_nat (length acc + 1)) limit) as [Hge|Hlt].
    + unfold ret. replace k with 1 by (unfold k; lia). reflexivity.
    + rewrite IH by (rewrite length_app; simpl; lia).
      rewrite length_app. change (length [x]) with 1. cbn [deleted trace].
      replace k with (S (Z.to_nat limit - (length acc + 1))) by (unfold k; lia).
      simpl. rewrite <- !app_assoc. reflexivity.
Qed.

(** X8. With a check that accepts every message, as the [purge] command
    and [purge_after] use, and a limit from 1 to 5000, the scan examines and
    collects exactly the first [limit] messages of the history: the ceiling
    of five times the limit is never what stops it. *)
Theorem unfiltered_scan_takes_first_limit (p : Platform) (limit : Z)
  (st : State) :
  (1 <= limit <= 5000)%Z ->
  ChannelPurger.collect p limit (fun _ => true) st =
  (firstn (Z.to_nat limit) (history p),
   mkState (deleted st)
     (trace st ++
      HistoryOpen (Z.min (limit * 5) 5000) ::
      map HistoryItem (firstn (Z.to_nat limit) (history p)))).
Proof.
  intros Hlimit. unfold ChannelPurger.collect, bind, emit.
  rewrite scan_everything by (simpl; lia). cbv zeta. cbn [deleted trace length].
  unfold ChannelPurger.history_iter, ChannelPurger.scan_limit.
  rewrite Nat.sub_0_r, firstn_firstn.
  replace (Nat.min (Z.to_nat limit) (Z.to_nat (Z.min (limit * 5) 5000)))
    with (Z.to_nat limit) by lia.
  rewrite <- app_assoc. reflexivity.
Qed.

(** An instance: limit 2 on five messages. *)
Lemma unfiltered_scan_instance :
  (1 <= 2 <= 5000)%Z /\
  fst (ChannelPurger.collect (Scenario.calm (Scenario.msgs 5 1)) 2
         (fun _ => true) Scenario.fresh)
  = Scenario.msgs 2 1.
Proof.
  assert (H : (1 <= 2 <= 5000)%Z) by lia.
  split; [exact H|].
  rewrite (unfiltered_scan_takes_first_limit
             (Scenario.calm (Scenario.msgs 5 1)) 2 Scenario.fresh H).
  reflexivity.
Defined.

(** * Further properties of the cog *)

Lemma _prepare_run p ctx st :
  Purge._prepare p ctx st =
  (tt, mkState (deleted st) (trace st ++ prepare_events p ctx (trace st))).
Proof.
  unfold Purge._prepare, prepare_events.
  destruct (Purge.has_interaction ctx); [destruct (Purge.response_is_done ctx)|];
    simpl; unfold ret; try reflexivity.
  rewrite app_nil_r. now destruct st.
Qed.

Lemma _send_result_run plural_message removed st :
  Purge._send_result plural_message removed st =
  (tt, mkState (deleted st)
         (trace st ++ [Send (report_payload plural_message removed)])).
Proof.
  destruct removed as [|m l].
  - apply _send_result_nothing.
  - apply _send_result_breakdown. discriminate.
Qed.

Lemma purge_returns_deleted p limit check st :
  fst (ChannelPurger.purge p limit check st)
  = deleted (snd (ChannelPurger.purge p limit check st)).
Proof.
  destruct (ChannelPurger.purge p limit check st) as [out st'] eqn:E.
  apply purge_shape in E. cbv zeta in E.
  now destruct E as (ex & be & bd & bok & oe & od & ook & _ & _ & _ & _ & _ & ->).
Qed.

Lemma prepare_purge_report_run p plural_message ctx limit check st :
  Purge.prepare_purge_report p plural_message ctx limit check st =
  let run := ChannelPurger.purge p limit check
               (mkState [] (trace st ++ prepare_events p ctx (trace st))) in
  (tt, mkState (fst run)
         (trace (snd run) ++ [Send (report_payload plural_message (fst run))])).
Proof.
  unfold Purge.prepare_purge_report, bind. rewrite _prepare_run.
  unfold Purge._make_purger. cbn [trace deleted]. cbv zeta.
  pose proof (purge_returns_deleted p limit check
                (mkState [] (trace st ++ prepare_events p ctx (trace st))))
    as Hret.
  destruct (ChannelPurger.purge p limit check _) as [out st'].
  cbn [fst snd] in *. rewrite _send_result_run, <- Hret. reflexivity.
Qed.

Lemma purge_shows_no_prompt p limit check st :
  exists evs,
    trace (snd (ChannelPurger.purge p limit check st)) = trace st ++ evs /\
    filter is_prompt evs = [].
Proof.
  destruct (ChannelPurger.purge p limit check st) as [out st'] eqn:E.
  apply purge_shape in E. cbv zeta in E.
  destruct E as (ex & be & bd & bok & oe & od & ook & _ & Hb & Ho & Ht & _).
  eexists. split; [exact Ht|]. simpl. rewrite !filter_app.
  assert (Hnone : forall l, Forall (fun e => is_prompt e = false) l ->
                            filter is_prompt l = []).
  { induction 1 as [|e l He _ IH]; simpl; auto. now rewrite He. }
  rewrite (Hnone (map HistoryItem ex)), (Hnone be), (Hnone oe); auto.
  - eapply Forall_impl; [|exact (each_run_events _ _ _ _ Ho)].
    intros e He. now apply each_event_kind in He.
  - eapply Forall_impl; [|exact (chunks_run_events _ _ _ _ Hb)].
    intros e He. now apply bulk_event_kind in He.
  - apply Forall_forall. intros e He. apply in_map_iff in He.
    destruct He as (m & <- & _). reflexivity.
Qed.

Lemma prepare_events_kind p ctx tr :
  filter is_prompt (prepare_events p ctx tr) = [] /\
  flat_map targets (prepare_events p ctx tr) = [].
Proof.
  unfold prepare_events.
  destruct (Purge.has_interaction ctx); [destruct (Purge.response_is_done ctx)|];
    split; reflexivity.
Qed.

(** X9. When the limit is within 1..2000 and above the confirmation
    threshold, and the prompt is declined or times out, the command shows
    the prompt, replies that it was cancelled and does nothing else: the
    invoking message is kept, no history is read and nothing is deleted. *)
Theorem declined_confirmation_cancels_everything (p : Platform)
  (plural_message : nat -> string) (ctx : Purge.Context) (limit : Z)
  (check : Message -> bool) (confirm_threshold : Z) (st : State) :
  (1 <= limit <= 2000)%Z ->
  (limit > confirm_threshold)%Z ->
  confirm p (trace st) <> Some true ->
  Purge._validate_and_purge p plural_message ctx limit check
    confirm_threshold st =
  (tt, mkState (deleted st)
         (trace st ++
          [Prompt (Purge.prompt_text limit) (confirm p (trace st));
           Reply Purge.cancelled_text])).
Proof.
  intros Hrange Habove Hno. unfold Purge._validate_and_purge.
  destruct (Z.ltb_spec limit 1); [lia|].
  destruct (Z.gtb_spec limit 2000); [lia|]. cbn [orb].
  destruct (Z.gtb_spec limit confirm_threshold); [|lia].
  unfold bind, Purge.call_prompt, emit. cbn [deleted trace].
  destruct (confirm p (trace st)) as [[|]|]; [now elim Hno| |];
    cbv beta; cbn [deleted trace]; rewrite <- app_assoc; reflexivity.
Qed.

(** An instance: a prompt that times out. *)
Lemma declined_confirmation_instance :
  let p := mkPlatform (fun _ => Scenario.noon) (Scenario.msgs 5 1)
             (fun _ _ => Done) (fun _ _ => Done) (fun _ => None)
             (fun _ => Done) in
  ((1 <= 150 <= 2000)%Z /\ (150 > 100)%Z /\
   confirm p (trace Scenario.fresh) <> Some true) /\
  trace (snd (Purge._validate_and_purge p Purge.str
                (Purge.mkContext false false) 150 Scenario.everything 100
                Scenario.fresh))
  = [Prompt (Purge.prompt_text 150) None; Reply Purge.cancelled_text].
Proof.
  intros p.
  assert (H1 : (1 <= 150 <= 2000)%Z) by lia.
  assert (H2 : (150 > 100)%Z) by lia.
  assert (H3 : confirm p (trace Scenario.fresh) <> Some true) by discriminate.
  split; [auto|].
  rewrite (declined_confirmation_cancels_everything
             p Purge.str (Purge.mkContext false false) 150
             Scenario.everything 100 Scenario.fresh H1 H2 H3).
  reflexivity.
Defined.

(** X10. [_validate_and_purge] shows the confirmation prompt exactly when
    the limit is within 1..2000 and above the threshold, and then only
    once; in every other case its trace holds no prompt at all. *)
Theorem prompt_shown_iff_limit_above_threshold (p : Platform)
  (plural_message : nat -> string) (ctx : Purge.Context) (limit : Z)
  (check : Message -> bool) (confirm_threshold : Z) (st : State) :
  exists evs,
    trace (snd (Purge._validate_and_purge p plural_message ctx limit check
                  confirm_threshold st)) = trace st ++ evs /\
    filter is_prompt evs =
    if ((1 <=? limit) && (limit <=? 2000) && (limit >? confirm_threshold))%Z
    then [Prompt (Purge.prompt_text limit) (confirm p (trace st))]
    else [].
Proof.
  assert (Hgo : forall st0,
            exists evs,
              trace (snd (Purge.prepare_purge_report p plural_message ctx
                            limit check st0)) = trace st0 ++ evs /\
              filter is_prompt evs = []).
  { intros st0. rewrite prepare_purge_report_run. cbv zeta. cbn [snd trace].
    destruct (purge_shows_no_prompt p limit check
                (mkState [] (trace st0 ++ prepare_events p ctx (trace st0))))
      as (evs & Ht & Hn).
    rewrite Ht. cbn [trace].
    exists (prepare_events p ctx (trace st0) ++ evs ++
            [Send (report_payload plural_message
                     (fst (ChannelPurger.purge p limit check
                        (mkState [] (trace st0 ++
                           prepare_events p ctx (trace st0))))))]).
    split; [now rewrite <- !app_assoc|].
    rewrite !filter_app, Hn, (proj1 (prepare_events_kind p ctx (trace st0))).
    reflexivity. }
  unfold Purge._validate_and_purge.
  destruct (Z.ltb_spec limit 1) as [H1|H1].
  { exists [Reply Purge.limit_text]. split; [reflexivity|].
    destruct (Z.leb_spec 1 limit); [lia|]. reflexivity. }
  destruct (Z.gtb_spec limit 2000) as [H2|H2].
  { exists [Reply Purge.limit_text]. split; [reflexivity|].
    destruct (Z.leb_spec limit 2000); [lia|]. now rewrite andb_false_r. }
  cbn [orb]. destruct (Z.leb_spec 1 limit); [|lia].
  destruct (Z.leb_spec limit 2000); [|lia]. cbn [andb].
  destruct (Z.gtb_spec limit confirm_threshold) as [H3|H3].
  - unfold bind, Purge.call_prompt.
    destruct (confirm p (trace st)) as [[|]|] eqn:Ec.
    + destruct (Hgo (mkState (deleted st)
                       (trace st ++ [Prompt (Purge.prompt_text limit) (Some true)])))
        as (evs & Ht & Hn).
      exists (Prompt (Purge.prompt_text limit) (Some true) :: evs).
      rewrite Ht. cbn [trace]. split; [now rewrite <- app_assoc|].
      simpl. now rewrite Hn.
    + exists [Prompt (Purge.prompt_text limit) (Some false);
              Reply Purge.cancelled_text].
      split; [unfold emit; cbn; now rewrite <- app_assoc|reflexivity].
    + exists [Prompt (Purge.prompt_text limit) None;
              Reply Purge.cancelled_text].
      split; [unfold emit; cbn; now rewrite <- app_assoc|reflexivity].
  - apply Hgo.
Qed.








(** *** The counts of the breakdown *)

Lemma dict_set_adds_one (d : Purge.Dict) (k : string) :
  list_sum (map snd (Purge.dict_set d k (Purge.dict_get d k 0 + 1)))
  = list_sum (map snd d) + 1.
Proof.
  induction d as [|[k0 x] r IH]; simpl; auto.
  destruct (String.eqb k0 k); simpl; lia.
Qed.

(** X13. The counts of the breakdown dictionary add up to the number of
    deleted messages: every deleted message is counted under exactly one
    name. *)
Theorem breakdown_counts_add_up (removed : list Message) :
  list_sum (map snd (Purge.count_authors removed)) = length removed /\
  list_sum (map snd (Purge.sorted_desc (Purge.count_authors removed)))
  = length removed.
Proof.
  assert (H : list_sum (map snd (Purge.count_authors removed)) = length removed).
  { unfold Purge.count_authors.
    assert (Hfold : forall l d,
              list_sum (map snd
                (fold_left
                   (fun authors msg =>
                      let name := display_name (author msg) in
                      Purge.dict_set authors name
                        (Purge.dict_get authors name 0 + 1)) l d))
              = list_sum (map snd d) + length l).
    { induction l as [|m l IH]; intros d; simpl; [lia|].
      rewrite IH, dict_set_adds_one. lia. }
    rewrite Hfold. reflexivity. }
  split; [exact H|]. rewrite <- H.
  assert (Hperm : forall l l' : list nat,
            Permutation l l' -> list_sum l = list_sum l').
  { induction 1; simpl; lia. }
  apply Hperm, Permutation_map, sorted_desc_perm.
Qed.

Lemma StronglySorted_app_order {A : Type} (R : A -> A -> Prop) (l1 l2 : list A) :
  StronglySorted R (l1 ++ l2) ->
  forall x y, In x l1 -> In y l2 -> R x y.
Proof.
  induction l1 as [|a l1 IH]; simpl; intros H x y Hx Hy; [destruct Hx|].
  inversion H as [|? ? Hs Hall]; subst. destruct Hx as [->|Hx].
  - rewrite Forall_forall in Hall. apply Hall, in_or_app. now right.
  - now apply IH.
Qed.

(** X14. The ten entries that are listed are the top ten: no name left out
    of the listing has more deleted messages than a listed one.  No name is
    listed twice, and listed and omitted entries together are all the
    names. *)
Theorem listed_entries_are_the_top_ten (removed : list Message) :
  let sorted := Purge.sorted_desc (Purge.count_authors removed) in
  (forall listed omitted,
     In listed (firstn 10 sorted) -> In omitted (skipn 10 sorted) ->
     snd omitted <= snd listed) /\
  NoDup (map fst sorted) /\
  Permutation (map fst (firstn 10 sorted) ++ map fst (skipn 10 sorted))
    (first_seen (names_of removed)).
Proof.
  intros sorted. split; [|split].
  - intros listed omitted Hl Ho.
    apply (StronglySorted_app_order count_ge (firstn 10 sorted) (skipn 10 sorted));
      auto.
    rewrite firstn_skipn. apply sorted_desc_sorted.
  - eapply Permutation_NoDup.
    + apply Permutation_map, Permutation_sym, sorted_desc_perm.
    + rewrite count_authors_spec, map_map. simpl. rewrite map_id.
      apply first_seen_NoDup.
  - rewrite <- map_app, firstn_skipn. unfold sorted.
    rewrite (Permutation_map fst (sorted_desc_perm (Purge.count_authors removed))).
    rewrite count_authors_spec, map_map. simpl. now rewrite map_id.
Qed.

(** * Further properties of the commands *)

(** X15. The filter of [bots] without a given bot and the filter of
    [humans] split every list of messages in two: each message is matched
    by exactly one of them. *)
Theorem bots_and_humans_split_messages (l : list Message) :
  (forall m, Commands.bots_check None m = negb (Commands.humans_check m)) /\
  (forall m, ~ (In m (filter (Commands.bots_check None) l) /\
                In m (filter Commands.humans_check l))) /\
  Permutation
    (filter (Commands.bots_check None) l ++ filter Commands.humans_check l) l.
Proof.
  split; [|split].
  - intros m. unfold Commands.bots_check, Commands.humans_check.
    now rewrite negb_involutive.
  - intros m [H1 H2]. apply filter_In in H1, H2.
    unfold Commands.bots_check, Commands.humans_check in *.
    destruct H1 as [_ H1], H2 as [_ H2]. rewrite H1 in H2. discriminate.
  - induction l as [|m l IH]; simpl; auto.
    unfold Commands.humans_check at 1. destruct (bot (author m)); simpl.
    + now constructor.
    + apply Permutation_sym, Permutation_cons_app, Permutation_sym, IH.
Qed.

Lemma existsb_nonempty {A : Type} (f : A -> bool) (l : list A) :
  existsb f l = true -> 0 < length l.
Proof. destruct l; simpl; [discriminate|lia]. Qed.

(** X16. A message matched by the filter of [images] is matched by the
    filter of [files] or by the filter of [embeds]; an attachment without a
    content type never makes a message an image. *)
Theorem images_are_files_or_embeds (attrs : Message -> Commands.Attributes)
  (m : Message) :
  (Commands.images_check attrs m = true ->
   Commands.files_check attrs m = true \/ Commands.embeds_check attrs m = true) /\
  (Commands.embeds (attrs m) = [] ->
   Forall (fun a => Commands.content_type a = None)
     (Commands.attachments (attrs m)) ->
   Commands.images_check attrs m = false).
Proof.
  unfold Commands.images_check, Commands.files_check, Commands.embeds_check.
  split.
  - intros H. apply orb_true_iff in H. destruct H as [H|H];
      apply existsb_nonempty in H; [left|right]; now apply Nat.ltb_lt.
  - intros -> Hall. simpl. rewrite orb_false_r.
    induction Hall as [|a l Ha _ IH]; simpl; auto. now rewrite Ha.
Qed.

(** X17. Whatever the order in which the two messages are given to
    [between], the purger's [after] bound is not newer than its [before]
    bound, the bounds are the two messages, and giving them in the other
    order yields the same bounds when their timestamps differ. *)
Theorem between_orders_its_bounds (start stop : Message) :
  (created_at (fst (Commands.between_bounds start stop))
   <= created_at (snd (Commands.between_bounds start stop)))%Z /\
  (Commands.between_bounds start stop = (start, stop) \/
   Commands.between_bounds start stop = (stop, start)) /\
  (created_at start <> created_at stop ->
   Commands.between_bounds start stop = Commands.between_bounds stop start).
Proof.
  unfold Commands.between_bounds.
  destruct (Z.gtb_spec (created_at start) (created_at stop));
    destruct (Z.gtb_spec (created_at stop) (created_at start));
    simpl; repeat split; auto; try lia.
Qed.

(** X18. [purge_after] always asks for confirmation first.  When the answer
    is not a confirmation it only replies that it was cancelled.  When it is
    confirmed, the run examines exactly the first 2000 messages of the
    history at most, and its deleted list never holds more than 2000
    messages. *)
Theorem purge_after_confirms_and_caps_at_2000 (p : Platform)
  (plural_message : nat -> string) (ctx : Purge.Context) (st : State) :
  let answer := confirm p (trace st) in
  let final := snd (Commands.purge_after p plural_message ctx st) in
  exists evs,
    trace final = trace st ++ Prompt Commands.purge_after_text answer :: evs /\
    (answer <> Some true ->
       evs = [Reply Purge.cancelled_text] /\ deleted final = deleted st) /\
    (answer = Some true ->
       flat_map examined_of evs = firstn 2000 (history p) /\
       length (deleted final) <= 2000).
Proof.
  intros answer final. unfold final, Commands.purge_after, bind, Purge.call_prompt.
  fold answer. cbn [deleted trace].
  destruct answer as [[|]|] eqn:Ea.
  - set (st0 := mkState (deleted st)
                  (trace st ++ [Prompt Commands.purge_after_text (Some true)])).
    change (let (_, st') := Purge._prepare p ctx st0 in
            let (_, st'0) := Purge._make_purger st' in
            let (a1, st'1) := ChannelPurger.purge p 2000 (fun _ => true) st'0 in
            Purge._send_result plural_message a1 st'1)
      with (Purge.prepare_purge_report p plural_message ctx 2000
              (fun _ => true) st0).
    rewrite prepare_purge_report_run. cbv zeta. cbn [snd trace deleted].
    set (st1 := mkState [] (trace st0 ++ prepare_events p ctx (trace st0))).
    destruct (purge_outcome_shape p 2000 (fun _ => true) st1)
      as (bd & od & Hnews & Hbp & Hop).
    pose proof (proj1 (collect_at_most_limit p 2000 (fun _ => true)
                         (mkState (deleted st1)
                            (trace st1 ++ [Utcnow (clock p (trace st1))]))
                         ltac:(lia))) as Hlen.
    pose proof (partition_lengths
                  (ChannelPurger.bulk_cutoff (clock p (trace st1)))
                  (fst (ChannelPurger.collect p 2000 (fun _ => true)
                          (mkState (deleted st1)
                             (trace st1 ++ [Utcnow (clock p (trace st1))])))))
      as Hpl.
    apply prefix_length in Hbp, Hop.
    assert (Hcol : forall s0,
              ChannelPurger.collect p 2000 (fun _ => true) s0 =
              (firstn 2000 (history p),
               mkState (deleted s0)
                 (trace s0 ++ HistoryOpen (Z.min (2000 * 5) 5000)
                    :: map HistoryItem (firstn 2000 (history p))))).
    { intros s0. unfold ChannelPurger.collect, bind, emit.
      rewrite scan_everything by (simpl; lia). cbv zeta.
      cbn [deleted trace length].
      unfold ChannelPurger.history_iter, ChannelPurger.scan_limit.
      rewrite Nat.sub_0_r, firstn_firstn.
      replace (Nat.min (Z.to_nat 2000) (Z.to_nat (Z.min (2000 * 5) 5000)))
        with 2000 by lia.
      rewrite <- app_assoc. reflexivity. }
    assert (Hex : exists rest,
              trace (snd (ChannelPurger.purge p 2000 (fun _ => true) st1))
              = trace st1 ++ Utcnow (clock p (trace st1))
                  :: HistoryOpen (Z.min (2000 * 5) 5000)
                  :: map HistoryItem (firstn 2000 (history p)) ++ rest /\
              flat_map examined_of rest = []).
    { rewrite purge_run. cbv zeta.
      rewrite Hcol. cbn [trace deleted].
      destruct (firstn 2000 (history p)) as [|m0 ms] eqn:Ef.
      - exists []. simpl. now rewrite <- app_assoc.
      - destruct (delete_phase_examines_nothing p (clock p (trace st1))
                    (m0 :: ms)
                    (mkState (deleted st1)
                       ((trace st1 ++ [Utcnow (clock p (trace st1))]) ++
                        HistoryOpen (Z.min (2000 * 5) 5000)
                        :: map HistoryItem (m0 :: ms))))
          as (rest & Hr & Hn).
        exists rest. split; [|exact Hn]. rewrite Hr. cbn [trace].
        rewrite <- !app_assoc. reflexivity. }
    destruct Hex as (rest & Ht & Hn). rewrite Ht.
    exists (prepare_events p ctx (trace st0) ++
            Utcnow (clock p (trace st1))
            :: HistoryOpen (Z.min (2000 * 5) 5000)
            :: map HistoryItem (firstn 2000 (history p)) ++ rest ++
            [Send (report_payload plural_message
                     (fst (ChannelPurger.purge p 2000 (fun _ => true) st1)))]).
    split; [|split].
    + unfold st1, st0. cbn [trace]. rewrite <- !app_assoc. cbn [app].
      rewrite <- !app_assoc. reflexivity.
    + intros Hno. now elim Hno.
    + intros _. split.
      * rewrite flat_map_app.
        assert (Hp : flat_map examined_of (prepare_events p ctx (trace st0)) = []).
        { unfold prepare_events.
          destruct (Purge.has_interaction ctx);
            [destruct (Purge.response_is_done ctx)|]; reflexivity. }
        rewrite Hp. simpl. rewrite !flat_map_app, examined_history_items, Hn.
        simpl. now rewrite app_nil_r.
      * rewrite Hnews. cbn [deleted st1 app]. rewrite length_app. lia.
  - exists [Reply Purge.cancelled_text]. unfold emit. cbn.
    split; [now rewrite <- app_assoc|]. split; [auto|discriminate].
  - exists [Reply Purge.cancelled_text]. unfold emit. cbn.
    split; [now rewrite <- app_assoc|]. split; [auto|discriminate].
Qed.

(** X19. The purger [_make_purger] builds always has a [before] bound: the
    explicit one when given, else the id of the [before] flag when it is
    set and not 0, else the invoking message.  The [after] bound is the
    explicit one, else the id of the [after] flag when set and not 0, else
    none.  A flag id of 0 counts as not set. *)
Theorem purger_is_always_bounded_before (ctx_message : Message)
  (flags : option Commands.PurgeFlags)
  (before after : option Commands.Bound) :
  let flag_id (read : Commands.PurgeFlags -> option Z) :=
    match flags with
    | Some f => match read f with
                | Some i => if (i =? 0)%Z then None else Some i
                | None => None
                end
    | None => None
    end in
  fst (Commands.purger_bounds ctx_message flags before after) =
    match before, flag_id Commands.flag_before with
    | Some b, _ => b
    | None, Some i => Commands.ObjectBound i
    | None, None => Commands.MessageBound ctx_message
    end /\
  snd (Commands.purger_bounds ctx_message flags before after) =
    match after, flag_id Commands.flag_after with
    | Some a, _ => Some a
    | None, Some i => Some (Commands.ObjectBound i)
    | None, None => None
    end.
Proof.
  unfold Commands.purger_bounds, Commands.get_before, Commands.get_after,
    Commands.object_if_set, Commands.or_else.
  destruct flags as [[[fb|] [fa|]]|]; simpl;
    destruct before, after; simpl;
    repeat match goal with
           | |- context [(?i =? 0)%Z] => destruct (i =? 0)%Z
           end; auto.
Qed.

(** X20. [cog_check] never answers [False]: it returns [True] exactly when
    the command is used in a guild, the author may manage messages, and the
    bot may manage messages and read the message history; otherwise it
    raises, and a missing permission of the author is reported before any
    missing permission of the bot. *)
Theorem cog_check_passes_iff_all_permissions (v : Commands.Permissions) :
  Commands.cog_check v <> inr false /\
  (Commands.cog_check v = inr true <->
   Commands.in_guild v = true /\
   Commands.author_manage_messages v = true /\
   Commands.bot_manage_messages v = true /\
   Commands.bot_read_message_history v = true) /\
  (Commands.in_guild v = true ->
   Commands.author_manage_messages v = false ->
   Commands.cog_check v
   = inl (Commands.MissingPermissions ["manage_messages"%string])).
Proof.
  unfold Commands.cog_check.
  destruct (Commands.in_guild v), (Commands.author_manage_messages v),
    (Commands.bot_manage_messages v), (Commands.bot_read_message_history v);
    simpl; repeat split; try discriminate; auto;
    intros; repeat match goal with
                   | H : _ /\ _ |- _ => destruct H
                   end; discriminate.
Qed.

(** *** The confirmation dialog *)

Lemma filter_twice {A : Type} (f : A -> bool) (l : list A) :
  filter f (filter f l) = filter f l.
Proof.
  induction l as [|x l IH]; simpl; auto.
  destruct (f x) eqn:Hx; simpl; rewrite ?Hx, IH; reflexivity.
Qed.

Lemma presses_keep_author handled : forall view,
  Confirmation.author_id (fold_left Confirmation.press handled view)
  = Confirmation.author_id view.
Proof.
  induction handled as [|c handled IH]; intros view; simpl; auto.
  rewrite IH. unfold Confirmation.press.
  destruct (Confirmation.interaction_check view c); auto.
  now destruct (Confirmation.button c).
Qed.

Lemma presses_value handled : forall view,
  Confirmation.value (fold_left Confirmation.press handled view) =
  match rev (filter (fun c => (Confirmation.clicker c
                               =? Confirmation.author_id view)%Z) handled) with
  | [] => Confirmation.value view
  | c :: _ => Some (pressed_confirm c)
  end.
Proof.
  induction handled as [|c handled IH] using rev_ind; intros view; auto.
  rewrite fold_left_app, filter_app. simpl.
  unfold Confirmation.press at 1, Confirmation.interaction_check.
  rewrite presses_keep_author.
  destruct (Confirmation.clicker c =? Confirmation.author_id view)%Z.
  - rewrite rev_app_distr. simpl. unfold pressed_confirm.
    now destruct (Confirmation.button c).
  - rewrite app_nil_r. apply IH.
Qed.

(** X21. What [Context.prompt] returns is decided by the presses of the
    user the view listens to, by default the author of the command, and by
    nobody else: it is the button of the last of these presses dispatched
    before the dialog was over, and [None] when there was none.  So it
    returns [True] only if that user pressed Confirm, and presses by other
    users change nothing. *)
Theorem prompt_decided_only_by_author_presses (ctx_author : Z)
  (handled : list Confirmation.Click) :
  let mine := filter (fun c => (Confirmation.clicker c =? ctx_author)%Z)
                handled in
  Confirmation.prompt ctx_author None handled =
    match rev mine with
    | [] => None
    | c :: _ => Some (pressed_confirm c)
    end /\
  Confirmation.prompt ctx_author None handled
  = Confirmation.prompt ctx_author None mine /\
  (Confirmation.prompt ctx_author None handled = None <-> mine = []) /\
  (Confirmation.prompt ctx_author None handled = Some true ->
   exists c, In c handled /\ Confirmation.clicker c = ctx_author /\
             Confirmation.button c = Confirmation.ConfirmButton).
Proof.
  intros mine.
  assert (Hv : Confirmation.prompt ctx_author None handled =
               match rev mine with
               | [] => None
               | c :: _ => Some (pressed_confirm c)
               end).
  { unfold Confirmation.prompt. now rewrite presses_value. }
  assert (Hff : filter (fun c => (Confirmation.clicker c =? ctx_author)%Z) mine
                = mine) by apply filter_twice.
  split; [exact Hv|]. split; [|split].
  - rewrite Hv. unfold Confirmation.prompt. rewrite presses_value.
    cbn [Confirmation.new_view Confirmation.author_id Confirmation.value].
    now rewrite Hff.
  - rewrite Hv. split.
    + intros H. destruct (rev mine) eqn:Hr; [|discriminate].
      apply (f_equal (@rev _)) in Hr. now rewrite rev_involutive in Hr.
    + intros ->. reflexivity.
  - rewrite Hv. intros H. destruct (rev mine) as [|c l] eqn:Hr; [discriminate|].
    assert (Hc : In c mine).
    { apply in_rev. rewrite Hr. now left. }
    unfold mine in Hc. apply filter_In in Hc. destruct Hc as [Hin Hauth].
    exists c. split; [exact Hin|]. split; [now apply Z.eqb_eq|].
    unfold pressed_confirm in H.
    destruct (Confirmation.button c); [reflexivity|discriminate].
Qed.

(** * The phases of a run *)

(** X22. A run of [purge] goes through its phases in order and never mixes
    them: first the clock reading and the scan, which delete nothing; then
    the calls of the bulk phase, all on messages created after the cutoff;
    then the one-by-one deletes, all on messages created at or before the
    cutoff.  No history is read once the first delete call is made. *)
Theorem purge_runs_scan_then_bulk_then_old (p : Platform) (limit : Z)
  (check : Message -> bool) (st : State) :
  let cutoff := (clock p (trace st) - 1209600000000)%Z in
  exists scan_evs bulk_evs old_evs,
    trace (snd (ChannelPurger.purge p limit check st))
    = trace st ++ scan_evs ++ bulk_evs ++ old_evs /\
    flat_map targets scan_evs = [] /\
    flat_map examined_of (bulk_evs ++ old_evs) = [] /\
    (forall m, In m (flat_map targets bulk_evs) -> (created_at m > cutoff)%Z) /\
    (forall m, In m (flat_map targets old_evs) -> (created_at m <= cutoff)%Z) /\
    flat_map bulk_targets old_evs = [].
Proof.
  intros cutoff.
  destruct (ChannelPurger.purge p limit check st) as [out st'] eqn:E.
  apply purge_shape in E. cbv zeta in E.
  destruct E as (ex & be & bd & bok & oe & od & ook & Hex & Hb & Ho & Ht & _).
  exists (Utcnow (clock p (trace st))
          :: HistoryOpen (ChannelPurger.scan_limit limit)
          :: map HistoryItem ex), be, oe.
  assert (Hcut : ChannelPurger.bulk_cutoff (clock p (trace st)) = cutoff).
  { unfold ChannelPurger.bulk_cutoff, ChannelPurger.BULK_DELETE_LIMIT, cutoff.
    lia. }
  rewrite Hcut in Hb, Ho.
  split; [exact Ht|]. split; [simpl; apply targets_history_items|].
  split; [|split; [|split]].
  - rewrite flat_map_app.
    rewrite (flat_map_nil_Forall examined_of be),
            (flat_map_nil_Forall examined_of oe); auto.
    + eapply Forall_impl; [|exact (each_run_events _ _ _ _ Ho)].
      intros e He. now apply each_event_kind in He.
    + eapply Forall_impl; [|exact (chunks_run_events _ _ _ _ Hb)].
      intros e He. now apply bulk_event_kind in He.
  - intros m Hin.
    apply (bulk_phase_targets _ _ (chunks_run_events _ _ _ _ Hb)) in Hin.
    rewrite chunks_concat in Hin. unfold ChannelPurger.bulk_msgs in Hin.
    apply filter_In in Hin. lia.
  - intros m Hin. apply (proj1 (each_phase_targets _ _ _ _ Ho)) in Hin.
    unfold ChannelPurger.old_msgs in Hin. apply filter_In in Hin. lia.
  - exact (proj2 (each_phase_targets _ _ _ _ Ho)).
Qed.

(** X23. Called with a limit of 0 or less, [purge] opens the history with
    a ceiling that is not positive, gets no message from it, and returns
    the deleted list as it was without any delete call. *)
Theorem purge_with_nonpositive_limit_does_nothing (p : Platform) (limit : Z)
  (check : Message -> bool) (st : State) :
  (limit <= 0)%Z ->
  ChannelPurger.purge p limit check st =
  (deleted st,
   mkState (deleted st)
     (trace st ++ [Utcnow (clock p (trace st)); HistoryOpen (limit * 5)])).
Proof.
  intros Hlimit. rewrite purge_run. cbv zeta.
  unfold ChannelPurger.collect, bind, emit. cbn [deleted trace].
  assert (Hnone : ChannelPurger.history_iter p (ChannelPurger.scan_limit limit)
                  = []).
  { unfold ChannelPurger.history_iter, ChannelPurger.scan_limit.
    replace (Z.to_nat (Z.min (limit * 5) 5000)) with 0 by lia. reflexivity. }
  rewrite Hnone. simpl. unfold ret.
  replace (ChannelPurger.scan_limit limit) with (limit * 5)%Z
    by (unfold ChannelPurger.scan_limit; lia).
  rewrite <- app_assoc. reflexivity.
Qed.

(** An instance: limit 0 on a channel with messages. *)
Lemma purge_with_nonpositive_limit_instance :
  (0 <= 0)%Z /\
  fst (ChannelPurger.purge (Scenario.calm (Scenario.msgs 5 1)) 0
         Scenario.everything Scenario.fresh) = [].
Proof.
  assert (H : (0 <= 0)%Z) by lia.
  split; [exact H|].
  rewrite (purge_with_nonpositive_limit_does_nothing
             (Scenario.calm (Scenario.msgs 5 1)) 0 Scenario.everything
             Scenario.fresh H).
  reflexivity.
Defined.
